(** * A todo-list web application: model and verified properties

    The development follows the three source modules of the application:
    - [todo_app/models.py]: the [Task] dataclass, its completion helpers,
      [is_overdue], and the record (de)serialisation [to_dict]/[from_dict];
    - [todo_app/storage.py]: [TaskStorage.load] and [TaskStorage.save] over one
      JSON file;
    - [todo_app/app.py]: the request handlers [index], [create_task],
      [update_status], [update_task], [delete_task] and their helpers.

    Python text is a sequence of code points, so a [str] is a [list N].  The
    interpreter and library services the application calls but does not
    define (case mapping, [strptime], the JSON codec, the wall clock and the
    UUID generator) are the fields of the class [Runtime]; every theorem holds
    for every runtime.  Effects (the backing file, the clock, the UUID source,
    raised exceptions) are threaded through a small state-and-error monad. *)

From Stdlib Require Import ZArith NArith Lia Bool Ascii String.
From Stdlib Require Import Sorted Permutation.
From stdpp Require Import base option list gmap strings.

Set Default Proof Using "Type".
Set Warnings "-register-all".

(** ** Python strings *)

Module PyStr.

Abbreviation pystr := (list N).

(** An ASCII literal of the source, code point by code point. *)
Definition str (s : string) : pystr :=
  map (fun a : ascii => N_of_ascii a) (list_ascii_of_string s).

(** [str.isspace] on one code point: CPython's table of whitespace. *)
Definition is_space (c : N) : bool :=
  ((9 <=? c) && (c <=? 13) || (28 <=? c) && (c <=? 32)
   || (c =? 133) || (c =? 160) || (c =? 5760)
   || (8192 <=? c) && (c <=? 8202)
   || (c =? 8232) || (c =? 8233) || (c =? 8239) || (c =? 8287)
   || (c =? 12288))%N.

Fixpoint lstrip (s : pystr) : pystr :=
  match s with
  | c :: s' => if is_space c then lstrip s' else s
  | [] => []
  end.

Definition rstrip (s : pystr) : pystr := rev (lstrip (rev s)).

(** [s.strip()] *)
Definition strip (s : pystr) : pystr := rstrip (lstrip s).

(** Truth value of a string: [bool(s)], false exactly for the empty one. *)
Definition nonempty (s : pystr) : bool :=
  match s with [] => false | _ :: _ => true end.

Fixpoint starts_with (k s : pystr) : bool :=
  match k, s with
  | [], _ => true
  | _ :: _, [] => false
  | a :: k', b :: s' => (a =? b)%N && starts_with k' s'
  end.

(** [k in s] for two strings: [k] occurs at some offset of [s]. *)
Fixpoint contains (k s : pystr) : bool :=
  starts_with k s ||
  match s with
  | [] => false
  | _ :: s' => contains k s'
  end.

(** [a < b] on strings: lexicographic by code point, a proper prefix first. *)
Fixpoint ltb (a b : pystr) : bool :=
  match a, b with
  | _, [] => false
  | [], _ :: _ => true
  | x :: a', y :: b' =>
      if (x <? y)%N then true
      else if (y <? x)%N then false
      else ltb a' b'
  end.

Definition lt (a b : pystr) : Prop := ltb a b = true.
Definition le (a b : pystr) : Prop := ltb b a = false.

(** A surrogate code point.  A [str] can hold one on its own (the JSON
    escape [\ud800] decodes to one), but UTF-8 has no sequence for it. *)
Definition is_surrogate (c : N) : bool := ((55296 <=? c) && (c <=? 57343))%N.

(** [s.encode("utf-8")] returns: it raises [UnicodeEncodeError] exactly when
    [s] holds a surrogate. *)
Definition encodable (s : pystr) : bool :=
  forallb (fun c => negb (is_surrogate c)) s.

(** The number of bytes UTF-8 uses for a code point. *)
Definition utf8_width (c : N) : nat :=
  if (c <? 128)%N then 1
  else if (c <? 2048)%N then 2
  else if (c <? 65536)%N then 3
  else 4.

(** [len(s.encode("utf-8"))] *)
Fixpoint utf8_length (s : pystr) : nat :=
  match s with
  | [] => 0
  | c :: s' => utf8_width c + utf8_length s'
  end.

End PyStr.
Export PyStr.

(** ** Values, exceptions and the effect monad *)

(** What [json.loads] can return and [json.dumps] can print.  A dictionary
    keeps its insertion order, so it is an association list; a float is
    carried by its literal, no arithmetic is done on it. *)
Inductive pyval : Type :=
| PNone
| PBool (b : bool)
| PInt (z : Z)
| PFloat (lit : pystr)
| PStr (s : pystr)
| PList (items : list pyval)
| PDict (entries : list (pystr * pyval)).

(** The exception classes the application meets. *)
Inductive exn : Type :=
| OSError
| UnicodeDecodeError
| UnicodeEncodeError
| JSONDecodeError
| ValueError
| RecursionError
| AttributeError
| TypeError.

#[global] Instance exn_eq_dec : EqDecision exn.
Proof. solve_decision. Defined.

(** [isinstance(e, c)] on these classes: [JSONDecodeError],
    [UnicodeDecodeError] and [UnicodeEncodeError] are subclasses of
    [ValueError], and none is a subclass of another of them or of [OSError];
    [RecursionError] is a [RuntimeError], related to none of the others. *)
Definition is_instance (e c : exn) : bool :=
  match e, c with
  | OSError, OSError
  | UnicodeDecodeError, (UnicodeDecodeError | ValueError)
  | UnicodeEncodeError, (UnicodeEncodeError | ValueError)
  | JSONDecodeError, (JSONDecodeError | ValueError)
  | ValueError, ValueError
  | RecursionError, RecursionError
  | AttributeError, AttributeError
  | TypeError, TypeError => true
  | _, _ => false
  end.

(** A calendar date as [datetime.date] holds it. *)
Record date : Type := Date { year : Z; month : Z; day : Z }.

(** [d1 < d2] on dates: by year, then month, then day. *)
Definition date_ltb (d1 d2 : date) : bool :=
  ((year d1 <? year d2)
   || (year d1 =? year d2)
      && ((month d1 <? month d2)
          || (month d1 =? month d2) && (day d1 <? day d2)))%Z.

(** The backing file as [Path.exists] and [Path.read_text] see it. *)
Inductive FileState : Type :=
| Missing                       (* no file at the path *)
| Unreadable                    (* exists, reading fails with OSError *)
| NotUtf8                       (* exists, bytes are not valid UTF-8 *)
| Text (content : pystr).       (* exists and decodes to [content] *)

(** How the device treats the next [write_text]: [open(.., "w")] truncates
    the file, then the bytes of the encoded text are written; the write can
    be refused at open, or fail after some bytes have reached the file. *)
Inductive WriteFault : Type :=
| WriteOk
| FailAtOpen
| FailAfter (written : nat).

(** What a file holds that received the first [n] bytes of the UTF-8
    encoding of [s]: the code points whose sequences are complete, or, when
    the cut falls inside a sequence, bytes that are not valid UTF-8. *)
Fixpoint first_bytes (n : nat) (s : pystr) : FileState :=
  match s with
  | [] => Text []
  | c :: s' =>
      if (n =? 0)%nat then Text []
      else if (utf8_width c <=? n)%nat then
        match first_bytes (n - utf8_width c) s' with
        | Text p => Text (c :: p)
        | cut => cut
        end
      else NotUtf8
  end.

Record World : Type := mkWorld {
  disk : FileState;
  device : WriteFault;
  writes : nat;                 (* calls of write_text so far *)
  clock_reads : nat;            (* calls of datetime.now() so far *)
  uuid_draws : nat              (* calls of uuid.uuid4() so far *)
}.

(** The result of running a piece of code.  [Unmodelled] marks the one
    situation this model does not follow further: a dataclass field that
    received a value outside its declared type (Python stores it as is). *)
Inductive outcome (A : Type) : Type :=
| Returned (a : A)
| Raised (e : exn)
| Unmodelled.
Arguments Returned {A} a.
Arguments Raised {A} e.
Arguments Unmodelled {A}.

Definition M (A : Type) : Type := World -> outcome A * World.

Definition ret {A} (a : A) : M A := fun w => (Returned a, w).

Definition raise {A} (e : exn) : M A := fun w => (Raised e, w).

Definition bind {A B} (m : M A) (k : A -> M B) : M B :=
  fun w =>
    match m w with
    | (Returned a, w') => k a w'
    | (Raised e, w') => (Raised e, w')
    | (Unmodelled, w') => (Unmodelled, w')
    end.

Notation "x <~ m ;; k" := (bind m (fun x => k))
  (at level 100, m at next level, right associativity,
   format "'[v' x  <~  m  ;;  '/' k ']'").

(** [try: body except (classes): handler] *)
Definition try_except {A} (body : M A) (classes : list exn) (handler : M A)
  : M A :=
  fun w =>
    match body w with
    | (Raised e, w') =>
        if existsb (is_instance e) classes then handler w'
        else (Raised e, w')
    | r => r
    end.

(** A list comprehension whose element expression has effects: left to right,
    stopping at the first element that raises. *)
Fixpoint for_each {A B} (f : A -> M B) (l : list A) : M (list B) :=
  match l with
  | [] => ret []
  | a :: l' =>
      b <~ f a ;;
      bs <~ for_each f l' ;;
      ret (b :: bs)
  end.

(** ** The runtime the application runs on *)

Class Runtime : Type := {
  (** [str.lower] *)
  str_lower : pystr -> pystr;
  (** [datetime.strptime(s, "%Y-%m-%d").date()]; [None] is [ValueError] *)
  strptime : pystr -> option date;
  (** the empty text does not match the format *)
  strptime_empty : strptime [] = None;
  (** [json.loads]; [None] when it raises *)
  json_loads : pystr -> option pyval;
  (** the exception [json.loads] raises on a text it does not decode:
      [json.JSONDecodeError] for a malformed document, but also
      [RecursionError] for one nested too deeply and a plain [ValueError]
      for an integer literal with too many digits *)
  json_error : pystr -> exn;
  (** [json.dumps(v, ensure_ascii=False, indent=2)] *)
  json_dumps : pyval -> pystr;
  (** the text [datetime.now().replace(microsecond=0).isoformat()] gives on
      its [k]-th call *)
  now_at : nat -> pystr;
  (** the text [uuid.uuid4().hex] gives on its [k]-th call *)
  uuid_at : nat -> pystr;
  (** [hex] is the 32 hexadecimal digits of the 128-bit value *)
  uuid_at_length : forall k, length (uuid_at k) = 32
}.

(** ** [todo_app/models.py] *)

(** The dataclass [Task], each field at its declared type. *)
Record Task : Type := mkTask {
  title : pystr;
  description : pystr;
  due_date : option pystr;
  completed : bool;
  id : pystr;
  created_at : pystr;
  updated_at : pystr
}.

#[global] Instance Task_eq_dec : EqDecision Task.
Proof. solve_decision. Defined.

(** Truth value of an [Optional[str]]: [None] and the empty text are false. *)
Definition truthy (o : option pystr) : bool :=
  match o with
  | Some s => nonempty s
  | None => false
  end.

(** [d.get(key, default)] on a dictionary. *)
Fixpoint dict_get (d : list (pystr * pyval)) (key : pystr) (default : pyval)
  : pyval :=
  match d with
  | [] => default
  | (k, v) :: d' => if bool_decide (k = key) then v else dict_get d' key default
  end.

(** The attribute lookup [data.get]: only a dictionary has it. *)
Definition get_method (data : pyval) : M (list (pystr * pyval)) :=
  match data with
  | PDict d => ret d
  | _ => raise AttributeError
  end.

(** Storing a value in a field declared [str], [Optional[str]] or [bool].
    The dataclass performs no check; a value of another type is where the
    model stops. *)
Definition field_str (v : pyval) : M pystr :=
  match v with
  | PStr s => ret s
  | _ => fun w => (Unmodelled, w)
  end.

Definition field_opt_str (v : pyval) : M (option pystr) :=
  match v with
  | PNone => ret None
  | PStr s => ret (Some s)
  | _ => fun w => (Unmodelled, w)
  end.

Definition field_bool (v : pyval) : M bool :=
  match v with
  | PBool b => ret b
  | _ => fun w => (Unmodelled, w)
  end.

Definition val_opt_str (o : option pystr) : pyval :=
  match o with
  | Some s => PStr s
  | None => PNone
  end.

Section Models.
Context `{Runtime}.

(** [_now()]: one reading of the clock, to the second. *)
Definition _now : M pystr :=
  fun w =>
    (Returned (now_at (clock_reads w)),
     mkWorld (disk w) (device w) (writes w) (S (clock_reads w)) (uuid_draws w)).

(** [uuid.uuid4().hex] *)
Definition uuid4_hex : M pystr :=
  fun w =>
    (Returned (uuid_at (uuid_draws w)),
     mkWorld (disk w) (device w) (writes w) (clock_reads w) (S (uuid_draws w))).

(** [Task(title=.., description=.., due_date=..)]: the three remaining
    fields come from their default factories, called in field order. *)
Definition new_Task (title description : pystr) (due_date : option pystr)
  : M Task :=
  i <~ uuid4_hex ;;
  c <~ _now ;;
  u <~ _now ;;
  ret (mkTask title description due_date false i c u).

Definition mark_completed (self : Task) : M Task :=
  u <~ _now ;;
  ret (mkTask (title self) (description self) (due_date self) true
              (id self) (created_at self) u).

Definition mark_active (self : Task) : M Task :=
  u <~ _now ;;
  ret (mkTask (title self) (description self) (due_date self) false
              (id self) (created_at self) u).

Definition toggle_completed (self : Task) : M Task :=
  u <~ _now ;;
  ret (mkTask (title self) (description self) (due_date self)
              (negb (completed self)) (id self) (created_at self) u).

(** [is_overdue], with [today] the value of [date.today()]. *)
Definition is_overdue (today : date) (self : Task) : bool :=
  if negb (truthy (due_date self)) || completed self then false
  else
    match due_date self with
    | None => false
    | Some d =>
        match strptime d with
        | None => false                      (* except ValueError *)
        | Some due => date_ltb due today
        end
    end.

Definition to_dict (self : Task) : list (pystr * pyval) :=
  [ (str "title", PStr (title self));
    (str "description", PStr (description self));
    (str "due_date", val_opt_str (due_date self));
    (str "completed", PBool (completed self));
    (str "id", PStr (id self));
    (str "created_at", PStr (created_at self));
    (str "updated_at", PStr (updated_at self)) ].

(** [Task.from_dict(data)].  The arguments are evaluated in order, so the
    defaults [uuid.uuid4().hex] and [_now()] are computed whether or not the
    key is present. *)
Definition from_dict (data : pyval) : M Task :=
  d <~ get_method data ;;
  t <~ field_str (dict_get d (str "title") (PStr [])) ;;
  ds <~ field_str (dict_get d (str "description") (PStr [])) ;;
  due <~ field_opt_str (dict_get d (str "due_date") PNone) ;;
  c <~ field_bool (dict_get d (str "completed") (PBool false)) ;;
  fresh <~ uuid4_hex ;;
  i <~ field_str (dict_get d (str "id") (PStr fresh)) ;;
  now1 <~ _now ;;
  ca <~ field_str (dict_get d (str "created_at") (PStr now1)) ;;
  now2 <~ _now ;;
  ua <~ field_str (dict_get d (str "updated_at") (PStr now2)) ;;
  ret (mkTask t ds due c i ca ua).

(** [short_due_date] *)
Definition short_due_date (self : Task) : pystr :=
  if truthy (due_date self) then default [] (due_date self) else str "-".

End Models.

(** ** [todo_app/storage.py] *)

Section Storage.
Context `{Runtime}.

(** [self.path.exists()] *)
Definition path_exists : M bool :=
  fun w => (Returned (match disk w with Missing => false | _ => true end), w).

(** [self.path.read_text(encoding="utf-8")] *)
Definition read_text : M pystr :=
  fun w =>
    match disk w with
    | Text s => (Returned s, w)
    | NotUtf8 => (Raised UnicodeDecodeError, w)
    | Unreadable | Missing => (Raised OSError, w)
    end.

(** [self.path.write_text(data, encoding="utf-8")], which is
    [with self.open("w", encoding="utf-8") as f: f.write(data)].  Opening
    truncates the file, or fails and leaves it alone.  [f.write] then encodes
    the whole text before any byte is handed on, so a text with a surrogate
    raises [UnicodeEncodeError] and leaves the file empty.  Otherwise the
    bytes are written, all of them or, on a device that fails, the first
    few. *)
Definition write_text (data : pystr) : M unit :=
  fun w =>
    let after (d : FileState) :=
      mkWorld d WriteOk (S (writes w)) (clock_reads w) (uuid_draws w) in
    match device w with
    | FailAtOpen => (Raised OSError, after (disk w))
    | WriteOk =>
        if encodable data then (Returned tt, after (Text data))
        else (Raised UnicodeEncodeError, after (Text []))
    | FailAfter n =>
        if encodable data then
          if decide (n < utf8_length data)
          then (Raised OSError, after (first_bytes n data))
          else (Returned tt, after (Text data))
        else (Raised UnicodeEncodeError, after (Text []))
    end.

(** [json.loads(content)] *)
Definition loads (content : pystr) : M pyval :=
  match json_loads content with
  | Some v => ret v
  | None => raise (json_error content)
  end.

(** [for item in data]: what iterating the decoded value yields. *)
Definition iterate (data : pyval) : M (list pyval) :=
  match data with
  | PList items => ret items
  | PDict entries => ret (map (fun kv => PStr (fst kv)) entries)
  | PStr s => ret (map (fun c => PStr [c]) s)
  | PNone | PBool _ | PInt _ | PFloat _ => raise TypeError
  end.

(** [TaskStorage.load].  The [try] block covers reading and decoding; the
    comprehension over [data] runs after it, outside any handler. *)
Definition load : M (list Task) :=
  present <~ path_exists ;;
  if negb present then ret []
  else
    r <~ try_except
           (content <~ read_text ;;
            if negb (nonempty (strip content)) then ret None
            else data <~ loads content ;; ret (Some data))
           [OSError; JSONDecodeError]
           (ret None) ;;
    match r with
    | None => ret []
    | Some data =>
        items <~ iterate data ;;
        for_each from_dict items
    end.

(** [TaskStorage.save] *)
Definition save (tasks : list Task) : M unit :=
  let payload := map (fun task => PDict (to_dict task)) tasks in
  write_text (json_dumps (PList payload)).

End Storage.

(** ** [todo_app/app.py] *)

(** A request: the query string ([request.args]) and the posted form
    ([request.form]), each a mapping from field names to text. *)
Record Request : Type := mkRequest {
  args : gmap string pystr;
  form : gmap string pystr
}.

(** The messages handed to [flash], named by what they say. *)
Inductive message : Type :=
| MsgTitleEmpty        (* 任务标题不能为空。 *)
| MsgDueDateFormat     (* 截止日期格式必须为 YYYY-MM-DD。 *)
| MsgCreated           (* 任务已创建。 *)
| MsgTaskNotFound      (* 未找到对应的任务。 *)
| MsgUnknownState      (* 未知的任务状态。 *)
| MsgStatusUpdated     (* 任务状态已更新。 *)
| MsgUpdated           (* 任务已更新。 *)
| MsgDeleteNotFound    (* 未找到需要删除的任务。 *)
| MsgDeleted.          (* 任务已删除。 *)

Inductive category : Type := error | success.

(** What a POST handler answers: the flashed message with its category and
    the query parameters of the redirect to the index page. *)
Record Response : Type := mkResponse {
  flashed : message * category;
  location : gmap string pystr
}.

(** What [index] hands to the template. *)
Record View : Type := mkView {
  view_tasks : list Task;
  view_search : pystr;
  view_status : pystr;
  view_edit_task : option Task
}.

(** The key [sort_key] builds, and [<] on such tuples: the first position
    where the two differ decides; [False < True] on the flag. *)
Definition key : Type := bool * pystr * pystr.

Definition key_ltb (a b : key) : bool :=
  let '(c1, d1, u1) := a in
  let '(c2, d2, u2) := b in
  if negb (eqb c1 c2) then negb c1 && c2
  else if negb (bool_decide (d1 = d2)) then ltb d1 d2
  else ltb u1 u2.

(** The builtin [sorted(items, key=f)], modelled from its documentation: the
    result is in ascending key order, only [<] is used on keys, and the sort
    is stable.  Insertion from the right end realises it: an item goes in
    front of the first item whose key is not smaller than its own. *)
Fixpoint insert_sorted {A} (f : A -> key) (x : A) (l : list A) : list A :=
  match l with
  | [] => [x]
  | y :: l' =>
      if key_ltb (f y) (f x) then y :: insert_sorted f x l'
      else x :: y :: l'
  end.

Fixpoint sorted {A} (f : A -> key) (l : list A) : list A :=
  match l with
  | [] => []
  | x :: l' => insert_sorted f x (sorted f l')
  end.

Section App.
Context `{Runtime}.

(** [_timestamp()] has the body of [models._now]. *)
Definition _timestamp : M pystr := _now.

Definition load_tasks : M (list Task) := load.

Definition save_tasks (tasks : list Task) : M unit := save tasks.

(** [find_task]: the first task with that id.  The position stands for the
    identity of the object found, which the handlers then mutate in place. *)
Definition find_task (tasks : list Task) (task_id : pystr)
  : option (nat * Task) :=
  list_find (fun task => id task = task_id) tasks.

(** [validate_due_date]; its argument is always text here, so the guard
    against [None] in its first line leaves it as it is. *)
Definition validate_due_date (raw_value : pystr) : M (option pystr) :=
  let raw_value := strip raw_value in
  if negb (nonempty raw_value) then ret None
  else
    match strptime raw_value with
    | None => raise ValueError
    | Some _ => ret (Some raw_value)
    end.

Definition apply_completion (task : Task) (completed : bool) : M Task :=
  u <~ _timestamp ;;
  ret (mkTask (title task) (description task) (due_date task) completed
              (id task) (created_at task) u).

(** [redirect_to_index] with keyword arguments [extra]: the query parameters
    of the redirect. *)
Definition redirect_to_index (req : Request) (extra : gmap string pystr)
  : gmap string pystr :=
  let params : gmap string pystr := ∅ in
  let query := strip (default [] (form req !! "q")) in
  let params := if nonempty query then <["q" := query]> params else params in
  let status_value := strip (default [] (form req !! "status")) in
  let params :=
    if bool_decide (status_value ∈ [str "all"; str "active"; str "completed"])
       && (negb (bool_decide (status_value = str "all"))
           || bool_decide (is_Some (form req !! "status")))
    then <["status" := status_value]> params
    else params in
  extra ∪ params.

(** [flash(msg, cat)] followed by [return redirect_to_index(..)] *)
Definition answer (req : Request) (msg : message) (cat : category)
    (extra : gmap string pystr) : M Response :=
  ret (mkResponse (msg, cat) (redirect_to_index req extra)).

(** [sort_key], local to [index]. *)
Definition sort_key (task : Task) : key :=
  let due_key :=
    if truthy (due_date task) then default [] (due_date task)
    else str "9999-12-31" in
  (completed task, due_key, updated_at task).

(** The body of [index] once [tasks], [search], [status] and [edit_id] are
    bound: the two filters, the sort, and the edit target. *)
Definition index_view (tasks : list Task) (search status : pystr)
    (edit_id : option pystr) : View :=
  let filtered := tasks in
  let filtered :=
    if nonempty search then
      let keyword := str_lower search in
      List.filter
        (fun task =>
           contains keyword (str_lower (title task))
           || contains keyword (str_lower (description task)))
        filtered
    else filtered in
  let filtered :=
    if bool_decide (status = str "active") then
      List.filter (fun task => negb (completed task)) filtered
    else if bool_decide (status = str "completed") then
      List.filter (fun task => completed task) filtered
    else filtered in
  let filtered := sorted sort_key filtered in
  let edit_task :=
    if truthy edit_id then snd <$> find_task tasks (default [] edit_id)
    else None in
  mkView filtered search status edit_task.

(** [GET /] *)
Definition index (req : Request) : M View :=
  tasks <~ load_tasks ;;
  let search := strip (default [] (args req !! "q")) in
  let status := default (str "all") (args req !! "status") in
  let edit_id := args req !! "edit" in
  ret (index_view tasks search status edit_id).

(** [POST /tasks] *)
Definition create_task (req : Request) : M Response :=
  tasks <~ load_tasks ;;
  let title := strip (default [] (form req !! "title")) in
  let description := strip (default [] (form req !! "description")) in
  let due_raw := strip (default [] (form req !! "due_date")) in
  if negb (nonempty title) then answer req MsgTitleEmpty error ∅
  else
    checked <~ try_except
                 (due_date <~ validate_due_date due_raw ;; ret (Some due_date))
                 [ValueError]
                 (ret None) ;;
    match checked with
    | None => answer req MsgDueDateFormat error ∅
    | Some due_date =>
        task <~ new_Task title description due_date ;;
        let tasks := tasks ++ [task] in
        _ <~ save_tasks tasks ;;
        answer req MsgCreated success ∅
    end.

(** [POST /tasks/<task_id>/status] *)
Definition update_status (task_id : pystr) (req : Request) : M Response :=
  tasks <~ load_tasks ;;
  match find_task tasks task_id with
  | None => answer req MsgTaskNotFound error ∅
  | Some (pos, task) =>
      let state := form req !! "state" in
      if negb (bool_decide
                 (state ∈ [Some (str "completed"); Some (str "active")]))
      then answer req MsgUnknownState error ∅
      else
        task <~ apply_completion task
                  (bool_decide (state = Some (str "completed"))) ;;
        let tasks := <[pos := task]> tasks in
        _ <~ save_tasks tasks ;;
        answer req MsgStatusUpdated success ∅
  end.

(** [POST /tasks/<task_id>/update] *)
Definition update_task (task_id : pystr) (req : Request) : M Response :=
  tasks <~ load_tasks ;;
  match find_task tasks task_id with
  | None => answer req MsgTaskNotFound error ∅
  | Some (pos, task) =>
      let title := strip (default [] (form req !! "title")) in
      let description := strip (default [] (form req !! "description")) in
      let due_raw := strip (default [] (form req !! "due_date")) in
      let completed_ :=
        bool_decide (form req !! "completed" = Some (str "1")) in
      if negb (nonempty title)
      then answer req MsgTitleEmpty error {["edit" := task_id]}
      else
        checked <~ try_except
                     (due_date <~ validate_due_date due_raw ;;
                      ret (Some due_date))
                     [ValueError]
                     (ret None) ;;
        match checked with
        | None => answer req MsgDueDateFormat error {["edit" := task_id]}
        | Some due_date =>
            let task := mkTask title description due_date
                          (completed task) (id task)
                          (created_at task) (updated_at task) in
            task <~ apply_completion task completed_ ;;
            let tasks := <[pos := task]> tasks in
            _ <~ save_tasks tasks ;;
            answer req MsgUpdated success ∅
        end
  end.

(** [POST /tasks/<task_id>/delete] *)
Definition delete_task (task_id : pystr) (req : Request) : M Response :=
  tasks <~ load_tasks ;;
  let remaining :=
    List.filter (fun task => negb (bool_decide (id task = task_id))) tasks in
  if bool_decide (length remaining = length tasks)
  then answer req MsgDeleteNotFound error ∅
  else
    _ <~ save_tasks remaining ;;
    answer req MsgDeleted success ∅.

End App.

(** ** The display helpers and the template globals *)

(** [ISO_FORMAT] *)
Definition ISO_FORMAT : pystr := str "%Y-%m-%d".

(** [status_label]: 已完成 for a completed task, 进行中 for an open one. *)
Definition status_label (self : Task) : pystr :=
  if completed self then [24050; 23436; 25104]%N
  else [36827; 34892; 20013]%N.

(** [inject_globals]: what every template is given besides its own
    arguments. *)
Definition inject_globals : gmap string pystr := {["ISO_FORMAT" := ISO_FORMAT]}.

(** ** A concrete runtime

    An executable instance of [Runtime], used to run the model on concrete
    requests.  It follows the library on ASCII text: [lower] maps [A-Z],
    [strptime] reads ASCII digits, the JSON printer is the one of
    [json.dumps(.., ensure_ascii=False, indent=2)], and the JSON reader
    accepts the documents of RFC 8259, up to the two bounds of the library:
    the nesting at which it raises [RecursionError] and the length of an
    integer literal at which it raises [ValueError].  The clock and the UUID
    source are given as streams. *)

Module Demo.

Definition lower_char (c : N) : N :=
  if ((65 <=? c) && (c <=? 90))%N then (c + 32)%N else c.

Definition lower (s : pystr) : pystr := map lower_char s.

(** *** [strptime] with the format [%Y-%m-%d] *)

Definition digit (c : N) : option Z :=
  if ((48 <=? c) && (c <=? 57))%N then Some (Z.of_N c - 48)%Z else None.

(** The text up to the first [-], and what follows that [-]. *)
Fixpoint split_dash (s : pystr) : pystr * option pystr :=
  match s with
  | [] => ([], None)
  | c :: s' =>
      if (c =? 45)%N then ([], Some s')
      else let '(a, b) := split_dash s' in (c :: a, b)
  end.

(** [%Y]: exactly four digits. *)
Definition read_year (s : pystr) : option Z :=
  match s with
  | [a; b; c; d] =>
      a ← digit a; b ← digit b; c ← digit c; d ← digit d;
      Some (1000 * a + 100 * b + 10 * c + d)%Z
  | _ => None
  end.

(** [%m]: [1[0-2]|0[1-9]|[1-9]]. *)
Definition read_month (s : pystr) : option Z :=
  match s with
  | [a] => a ← digit a; if (1 <=? a)%Z then Some a else None
  | [a; b] =>
      a ← digit a; b ← digit b;
      let m := (10 * a + b)%Z in
      if ((1 <=? m) && (m <=? 12))%Z then Some m else None
  | _ => None
  end.

(** [%d]: [3[01]|[12]\d|0[1-9]|[1-9]| [1-9]]. *)
Definition read_day (s : pystr) : option Z :=
  match s with
  | [a] => a ← digit a; if (1 <=? a)%Z then Some a else None
  | [a; b] =>
      b ← digit b;
      if (a =? 32)%N then (if (1 <=? b)%Z then Some b else None)
      else
        a ← digit a;
        let d := (10 * a + b)%Z in
        if ((1 <=? d) && (d <=? 31))%Z then Some d else None
  | _ => None
  end.

Definition is_leap (y : Z) : bool :=
  ((y mod 4 =? 0) && (negb (y mod 100 =? 0) || (y mod 400 =? 0)))%Z.

Definition days_in_month (y m : Z) : Z :=
  if (m =? 2)%Z then (if is_leap y then 29 else 28)%Z
  else if ((m =? 4) || (m =? 6) || (m =? 9) || (m =? 11))%Z then 30%Z
  else 31%Z.

Definition parse_date (s : pystr) : option date :=
  let '(ys, r1) := split_dash s in
  r1 ← r1;
  let '(ms, r2) := split_dash r1 in
  r2 ← r2;
  let '(ds, r3) := split_dash r2 in
  match r3 with
  | Some _ => None
  | None =>
      y ← read_year ys; m ← read_month ms; d ← read_day ds;
      if ((1 <=? y) && (d <=? days_in_month y m))%Z
      then Some (Date y m d) else None
  end.

(** *** Printing JSON *)

Definition hex_digit (n : N) : N :=
  if (n <? 10)%N then (48 + n)%N else (87 + n)%N.

Definition escape_char (c : N) : pystr :=
  if (c =? 34)%N then str "\" ++ [34%N]
  else if (c =? 92)%N then str "\\"
  else if (c =? 10)%N then str "\n"
  else if (c =? 13)%N then str "\r"
  else if (c =? 9)%N then str "\t"
  else if (c =? 8)%N then str "\b"
  else if (c =? 12)%N then str "\f"
  else if (c <? 32)%N then
    str "\u00" ++ [hex_digit (c / 16); hex_digit (c mod 16)]
  else [c].

Definition quote (s : pystr) : pystr :=
  [34%N] ++ concat (map escape_char s) ++ [34%N].

Fixpoint digits_of (fuel : nat) (n : N) (acc : pystr) : pystr :=
  match fuel with
  | O => acc
  | S fuel' =>
      let acc' := (48 + n mod 10)%N :: acc in
      if (n <? 10)%N then acc' else digits_of fuel' (n / 10) acc'
  end.

Definition decimal (z : Z) : pystr :=
  let n := Z.to_N (Z.abs z) in
  (if (z <? 0)%Z then [45%N] else [])
  ++ digits_of (S (N.to_nat (N.log2 n))) n [].

Definition newline (level : nat) : pystr :=
  10%N :: concat (replicate level (str "  ")).

Fixpoint dumps_at (level : nat) (v : pyval) : pystr :=
  match v with
  | PNone => str "null"
  | PBool true => str "true"
  | PBool false => str "false"
  | PInt z => decimal z
  | PFloat lit => lit
  | PStr s => quote s
  | PList [] => str "[]"
  | PList items =>
      str "[" ++ newline (S level)
      ++ (fix go (l : list pyval) : pystr :=
            match l with
            | [] => []
            | [x] => dumps_at (S level) x
            | x :: l' =>
                dumps_at (S level) x ++ str "," ++ newline (S level) ++ go l'
            end) items
      ++ newline level ++ str "]"
  | PDict [] => str "{}"
  | PDict entries =>
      str "{" ++ newline (S level)
      ++ (fix go (l : list (pystr * pyval)) : pystr :=
            match l with
            | [] => []
            | [(k, x)] => quote k ++ str ": " ++ dumps_at (S level) x
            | (k, x) :: l' =>
                quote k ++ str ": " ++ dumps_at (S level) x
                ++ str "," ++ newline (S level) ++ go l'
            end) entries
      ++ newline level ++ str "}"
  end.

Definition print_json (v : pyval) : pystr := dumps_at 0 v.

(** *** Reading JSON *)

Definition is_ws (c : N) : bool :=
  ((c =? 32) || (c =? 9) || (c =? 10) || (c =? 13))%N.

Fixpoint skip_ws (s : pystr) : pystr :=
  match s with
  | c :: s' => if is_ws c then skip_ws s' else s
  | [] => []
  end.

(** A value read with the text that follows it, or the exception that ends
    the reading. *)
Definition reading : Type := exn + (pyval * pystr).

Definition expect (lit : string) (v : pyval) (s : pystr) : reading :=
  if starts_with (str lit) s then inr (v, drop (String.length lit) s)
  else inl JSONDecodeError.

Definition hex_val (c : N) : option N :=
  if ((48 <=? c) && (c <=? 57))%N then Some (c - 48)%N
  else if ((97 <=? c) && (c <=? 102))%N then Some (c - 87)%N
  else if ((65 <=? c) && (c <=? 70))%N then Some (c - 55)%N
  else None.

Definition hex4 (a b c d : N) : option N :=
  a ← hex_val a; b ← hex_val b; c ← hex_val c; d ← hex_val d;
  Some (4096 * a + 256 * b + 16 * c + d)%N.

Definition unescape (c : N) : option N :=
  if (c =? 34)%N then Some 34%N
  else if (c =? 92)%N then Some 92%N
  else if (c =? 47)%N then Some 47%N
  else if (c =? 98)%N then Some 8%N
  else if (c =? 102)%N then Some 12%N
  else if (c =? 110)%N then Some 10%N
  else if (c =? 114)%N then Some 13%N
  else if (c =? 116)%N then Some 9%N
  else None.

Definition is_high (c : N) : bool := ((55296 <=? c) && (c <=? 56319))%N.
Definition is_low (c : N) : bool := ((56320 <=? c) && (c <=? 57343))%N.

(** The rest of a string literal after its opening quote; [acc] holds the
    characters read so far, last one first. *)
Fixpoint read_string (s : pystr) (acc : pystr) : option (pystr * pystr) :=
  match s with
  | [] => None
  | c :: s1 =>
      if (c =? 34)%N then Some (rev acc, s1)
      else if (c =? 92)%N then
        match s1 with
        | [] => None
        | e :: s2 =>
            if (e =? 117)%N then
              match s2 with
              | a :: b :: c' :: d :: s3 =>
                  match hex4 a b c' d with
                  | None => None
                  | Some hi =>
                      match s3 with
                      | b1 :: u1 :: a2 :: b2 :: c2 :: d2 :: s4 =>
                          match hex4 a2 b2 c2 d2 with
                          | Some lo =>
                              if is_high hi && (b1 =? 92)%N && (u1 =? 117)%N
                                 && is_low lo
                              then read_string s4
                                     ((65536 + (hi - 55296) * 1024
                                       + (lo - 56320))%N :: acc)
                              else read_string s3 (hi :: acc)
                          | None => read_string s3 (hi :: acc)
                          end
                      | _ => read_string s3 (hi :: acc)
                      end
                  end
              | _ => None
              end
            else
              match unescape e with
              | Some x => read_string s2 (x :: acc)
              | None => None
              end
        end
      else if (c <? 32)%N then None
      else read_string s1 (c :: acc)
  end.

Fixpoint span_digits (s : pystr) : pystr * pystr :=
  match s with
  | c :: s' =>
      if ((48 <=? c) && (c <=? 57))%N
      then let '(ds, r) := span_digits s' in (c :: ds, r)
      else ([], s)
  | [] => ([], [])
  end.

Definition value_of_digits (ds : pystr) : Z :=
  fold_left (fun acc c => (10 * acc + (Z.of_N c - 48))%Z) ds 0%Z.

(** An optional part of a number: the mark [m] (one of [marks]) followed by
    an optional sign when [signed], then at least one digit. *)
Definition read_part (marks : list N) (signed : bool) (s : pystr)
  : pystr * pystr :=
  match s with
  | m :: r =>
      if bool_decide (m ∈ marks) then
        let '(sign, r1) :=
          match r with
          | c :: r' =>
              if signed && ((c =? 43) || (c =? 45))%N then ([c], r')
              else ([], r)
          | [] => ([], r)
          end in
        let '(ds, r2) := span_digits r1 in
        if nonempty ds then (m :: sign ++ ds, r2) else ([], s)
      else ([], s)
  | [] => ([], s)
  end.

(** [int] refuses a literal of more than 4300 digits with a plain
    [ValueError] ([sys.int_info.default_max_str_digits]). *)
Definition max_str_digits : nat := 4300.

Definition read_number (s : pystr) : reading :=
  let '(neg, s1) :=
    match s with
    | c :: r => if (c =? 45)%N then (true, r) else (false, s)
    | [] => (false, s)
    end in
  let '(ds, s2) := span_digits s1 in
  match ds with
  | [] => inl JSONDecodeError
  | d :: ds' =>
      let '(int_part, s3) :=
        if (d =? 48)%N then ([d], ds' ++ s2) else (ds, s2) in
      let '(frac, s4) := read_part [46%N] false s3 in
      let '(exp, s5) := read_part [101%N; 69%N] true s4 in
      let sign := if neg then [45%N] else [] in
      if nonempty frac || nonempty exp
      then inr (PFloat (sign ++ int_part ++ frac ++ exp), s5)
      else if (max_str_digits <? length int_part)%nat then inl ValueError
      else
        let z := value_of_digits int_part in
        inr (PInt (if neg then (- z)%Z else z), s5)
  end.

(** [d[k] = v] while a dictionary is being built: a repeated key keeps its
    place and takes the later value. *)
Fixpoint dict_set (d : list (pystr * pyval)) (k : pystr) (v : pyval)
  : list (pystr * pyval) :=
  match d with
  | [] => [(k, v)]
  | (k', v') :: d' =>
      if bool_decide (k' = k) then (k, v) :: d' else (k', v') :: dict_set d' k v
  end.

(** The nesting at which the reader gives up with [RecursionError].  The
    interpreter's bound depends on its recursion limit and on the stack in
    use when [json.loads] is called; this one stands for it. *)
Definition max_depth : nat := 1000.

(** [depth] counts the arrays and objects that may still be opened. *)
Fixpoint parse_value (fuel depth : nat) (s : pystr) {struct fuel} : reading :=
  match fuel with
  | O => inl JSONDecodeError
  | S fuel' =>
      match s with
      | [] => inl JSONDecodeError
      | c :: r =>
          if (c =? 34)%N then
            match read_string r [] with
            | Some (t, r') => inr (PStr t, r')
            | None => inl JSONDecodeError
            end
          else if (c =? 91)%N then
            match depth with
            | O => inl RecursionError
            | S depth' =>
                match skip_ws r with
                | c' :: r' =>
                    if (c' =? 93)%N then inr (PList [], r')
                    else parse_items fuel' depth' (c' :: r') []
                | [] => inl JSONDecodeError
                end
            end
          else if (c =? 123)%N then
            match depth with
            | O => inl RecursionError
            | S depth' =>
                match skip_ws r with
                | c' :: r' =>
                    if (c' =? 125)%N then inr (PDict [], r')
                    else parse_members fuel' depth' (c' :: r') []
                | [] => inl JSONDecodeError
                end
            end
          else if (c =? 110)%N then expect "null" PNone s
          else if (c =? 116)%N then expect "true" (PBool true) s
          else if (c =? 102)%N then expect "false" (PBool false) s
          else if (c =? 78)%N then expect "NaN" (PFloat (str "nan")) s
          else if (c =? 73)%N then expect "Infinity" (PFloat (str "inf")) s
          else if starts_with (str "-Infinity") s
          then expect "-Infinity" (PFloat (str "-inf")) s
          else read_number s
      end
  end
with parse_items (fuel depth : nat) (s : pystr) (acc : list pyval)
    {struct fuel} : reading :=
  match fuel with
  | O => inl JSONDecodeError
  | S fuel' =>
      match parse_value fuel' depth s with
      | inl e => inl e
      | inr (v, r) =>
          match skip_ws r with
          | c :: r' =>
              if (c =? 44)%N
              then parse_items fuel' depth (skip_ws r') (v :: acc)
              else if (c =? 93)%N then inr (PList (rev (v :: acc)), r')
              else inl JSONDecodeError
          | [] => inl JSONDecodeError
          end
      end
  end
with parse_members (fuel depth : nat) (s : pystr)
    (acc : list (pystr * pyval)) {struct fuel} : reading :=
  match fuel with
  | O => inl JSONDecodeError
  | S fuel' =>
      match s with
      | c :: r =>
          if (c =? 34)%N then
            match read_string r [] with
            | None => inl JSONDecodeError
            | Some (k, r1) =>
                match skip_ws r1 with
                | c1 :: r2 =>
                    if (c1 =? 58)%N then
                      match parse_value fuel' depth (skip_ws r2) with
                      | inl e => inl e
                      | inr (v, r3) =>
                          let acc' := dict_set acc k v in
                          match skip_ws r3 with
                          | c2 :: r4 =>
                              if (c2 =? 44)%N
                              then parse_members fuel' depth (skip_ws r4) acc'
                              else if (c2 =? 125)%N then inr (PDict acc', r4)
                              else inl JSONDecodeError
                          | [] => inl JSONDecodeError
                          end
                      end
                    else inl JSONDecodeError
                | [] => inl JSONDecodeError
                end
            end
          else inl JSONDecodeError
      | [] => inl JSONDecodeError
      end
  end.

(** [json.loads]: one value, with whitespace around it and nothing else. *)
Definition decode (s : pystr) : exn + pyval :=
  match parse_value (S (length s)) max_depth (skip_ws s) with
  | inl e => inl e
  | inr (v, r) =>
      match skip_ws r with
      | [] => inr v
      | _ :: _ => inl JSONDecodeError
      end
  end.

Definition read_json (s : pystr) : option pyval :=
  match decode s with
  | inr v => Some v
  | inl _ => None
  end.

Definition read_error (s : pystr) : exn :=
  match decode s with
  | inl e => e
  | inr _ => JSONDecodeError
  end.

(** *** Clock and UUID streams *)

Fixpoint hex_of (width : nat) (n : N) (acc : pystr) : pystr :=
  match width with
  | O => acc
  | S width' => hex_of width' (n / 16) (hex_digit (n mod 16) :: acc)
  end.

(** A version-4 UUID in hexadecimal, one per draw: of its 32 digits the
    thirteenth is [4] and the seventeenth is [8], as [uuid4] sets them, and
    the last fifteen count the draws. *)
Definition uuid_stream (k : nat) : pystr :=
  str "000000000000" ++ str "4000" ++ str "8"
  ++ hex_of 15 (N.of_nat (S k)) [].

(** A clock that advances by one second at every reading. *)
Definition ticking (k : nat) : pystr :=
  str "2024-05-01T10:00:"
  ++ [(48 + N.of_nat (k / 10) mod 6)%N; (48 + N.of_nat k mod 10)%N].

(** A clock whose first reading falls in one second and every later one in
    the next. *)
Definition crossing (k : nat) : pystr :=
  match k with
  | O => str "2024-05-01T10:00:00"
  | S _ => str "2024-05-01T10:00:01"
  end.

(** A clock read many times within one second. *)
Definition steady (k : nat) : pystr := str "2024-05-01T10:00:00".

Definition runtime (clock : nat -> pystr) : Runtime :=
  {| str_lower := lower;
     strptime := parse_date;
     strptime_empty := eq_refl;
     json_loads := read_json;
     json_error := read_error;
     json_dumps := print_json;
     now_at := clock;
     uuid_at := uuid_stream;
     uuid_at_length := fun _ => eq_refl |}.

(** *** Sample data *)

(** A world with the given file, a device that works, and all counters at
    their start. *)
Definition world (file : FileState) : World := mkWorld file WriteOk 0 0 0.

(** A world whose device fails after [n] bytes of the next write. *)
Definition failing_world (file : FileState) (n : nat) : World :=
  mkWorld file (FailAfter n) 0 0 0.

Definition fields (l : list (string * string)) : gmap string pystr :=
  list_to_map (map (fun kv => (fst kv, str (snd kv))) l).

(** A POST request with the given form fields. *)
Definition post (l : list (string * string)) : Request :=
  mkRequest ∅ (fields l).

Definition milk : Task :=
  mkTask (str "Buy milk") (str "two litres") None false (str "a1")
         (str "2024-04-30T08:00:00") (str "2024-04-30T08:00:00").

Definition rent : Task :=
  mkTask (str "Pay rent") [] (Some (str "2020-01-01")) true (str "b2")
         (str "2024-04-29T09:30:00") (str "2024-04-30T07:15:00").

Definition report : Task :=
  mkTask (str "Write report") [] (Some (str "2020-01-01")) false (str "c3")
         (str "2024-04-28T10:00:00") (str "2024-04-28T10:00:00").

(** A file holding the serialisation of a collection. *)
Definition stored (tasks : list Task) : FileState :=
  Text (print_json (PList (map (fun task => PDict (to_dict task)) tasks))).

(** A task whose title is one lone surrogate, stamped by the clock [steady]
    at both of its readings. *)
Definition ghost : Task :=
  mkTask [55296%N] [] None false (str "d4")
         (str "2024-05-01T10:00:00") (str "2024-05-01T10:00:00").

(** A file from which [ghost] is read: the surrogate is there as the six
    ASCII characters of its escape, which [json.loads] turns into the code
    point; the two stamps are missing. *)
Definition ghost_file : FileState :=
  Text (str "[{" ++ quote (str "title") ++ str ": "
        ++ [34%N] ++ str "\ud800" ++ [34%N] ++ str ", "
        ++ quote (str "id") ++ str ": " ++ quote (str "d4") ++ str "}]").

(** A task whose title starts with a letter of two bytes. *)
Definition cafe : Task :=
  mkTask ([233%N] ++ str "clair") [] None false (str "e5")
         (str "2024-04-26T12:00:00") (str "2024-04-26T12:00:00").

(** [n] arrays, one inside the other. *)
Definition nested (n : nat) : pystr :=
  replicate n 91%N ++ replicate n 93%N.

(** The integer literal of [n] digits [7]. *)
Definition sevens (n : nat) : pystr := replicate n 55%N.

End Demo.

(** ** Vocabulary of the specification

    The notions the specification uses to describe the code, written out so
    that the theorems can compare the code with them. *)

(** [k] is a contiguous part of [s]. *)
Definition occurs_in (k s : pystr) : Prop := exists a b, s = a ++ k ++ b.

(** Ascending order on sort keys, position by position. *)
Definition key_lt (a b : key) : Prop :=
  let '(c1, d1, u1) := a in
  let '(c2, d2, u2) := b in
  (c1 = false /\ c2 = true)
  \/ (c1 = c2 /\ (lt d1 d2 \/ (d1 = d2 /\ lt u1 u2))).

(** [a] does not come after [b]. *)
Definition key_le (a b : key) : Prop := key_ltb b a = false.

(** [d1] is a day strictly before [d2]. *)
Definition date_before (d1 d2 : date) : Prop :=
  (year d1 < year d2
   \/ (year d1 = year d2
       /\ (month d1 < month d2
           \/ (month d1 = month d2 /\ day d1 < day d2))))%Z.


(** The world after [n] records have been read by [from_dict]: each reading
    draws one UUID and reads the clock twice. *)
Definition after_reading (n : nat) (w : World) : World :=
  mkWorld (disk w) (device w) (writes w)
          (2 * n + clock_reads w) (n + uuid_draws w).

(** Two worlds with the same backing file, device and number of writes: no
    [write_text] happened between them. *)
Definition same_store (w w' : World) : Prop :=
  disk w' = disk w /\ device w' = device w /\ writes w' = writes w.

(** What [save] hands to [json.dumps] for a collection. *)
Definition payload (tasks : list Task) : pyval :=
  PList (map (fun task => PDict (to_dict task)) tasks).

(** A record mapping with the keys listed in [missing] left out. *)
Definition without (missing : list pystr) (d : list (pystr * pyval))
  : list (pystr * pyval) :=
  List.filter (fun kv => negb (bool_decide (fst kv ∈ missing))) d.

(** The value a field takes when its key may be missing. *)
Definition or_default {A} (missing : list pystr) (key : string)
    (default value : A) : A :=
  if bool_decide (str key ∈ missing) then default else value.

(** An action that never writes the backing file. *)
Definition reads_only {A} (m : M A) : Prop :=
  forall w, same_store w (snd (m w)).

(** The world after one more reading of the clock. *)
Definition tick (w : World) : World :=
  mkWorld (disk w) (device w) (writes w) (S (clock_reads w)) (uuid_draws w).

(** A task with its completion flag set to [flag] and [updated_at] set to
    [stamp], every other field as it was. *)
Definition touched (t : Task) (flag : bool) (stamp : pystr) : Task :=
  mkTask (title t) (description t) (due_date t) flag
         (id t) (created_at t) stamp.

(** The first task of the list whose id is [task_id]. *)
Fixpoint lookup_by_id (tasks : list Task) (task_id : pystr) : option Task :=
  match tasks with
  | [] => None
  | t :: rest =>
      if bool_decide (id t = task_id) then Some t else lookup_by_id rest task_id
  end.

(** An action that raises no exception, in any world. *)
Definition never_raises {A} (m : M A) : Prop :=
  forall w e, fst (m w) <> Raised e.

(** The text [search] occurs in the title or the description of the task
    when letter case is ignored: both sides are compared in lower case. *)
Definition matches_search `{Runtime} (search : pystr) (t : Task) : Prop :=
  occurs_in (str_lower search) (str_lower (title t))
  \/ occurs_in (str_lower search) (str_lower (description t)).

(** The status filter: [active] keeps tasks that are not completed,
    [completed] keeps completed ones, any other value keeps every task. *)
Definition status_keeps (status : pystr) (t : Task) : Prop :=
  (status = str "active" -> completed t = false)
  /\ (status = str "completed" -> completed t = true).

(** The tasks the list shows for a given search text and status. *)
Definition visible `{Runtime} (search status : pystr) (t : Task) : Prop :=
  (search <> [] -> matches_search search t) /\ status_keeps status t.

(** The second component of the sort key: the due date, or the far-future
    date when the task has none ([None], or the empty text, which [or] treats
    alike). *)
Definition effective_due_date (t : Task) : pystr :=
  match due_date t with
  | Some (c :: d) => c :: d
  | _ => str "9999-12-31"
  end.

(** The two tests of [index] as one decision, in the order the code makes
    them. *)
Definition keeps `{Runtime} (search status : pystr) (t : Task) : bool :=
  (if nonempty search
   then contains (str_lower search) (str_lower (title t))
        || contains (str_lower search) (str_lower (description t))
   else true)
  && (if bool_decide (status = str "active") then negb (completed t)
      else if bool_decide (status = str "completed") then completed t
      else true).

(** The three texts a create or update form carries, as the handlers read
    them: the field, or the empty text when it is absent, with surrounding
    whitespace removed. *)
Definition title_text (req : Request) : pystr :=
  strip (default [] (form req !! "title")).

Definition description_text (req : Request) : pystr :=
  strip (default [] (form req !! "description")).

Definition due_text (req : Request) : pystr :=
  strip (default [] (form req !! "due_date")).

(** A due-date text is acceptable when it is empty or parses as a date. *)
Definition due_text_ok `{Runtime} (text : pystr) : Prop :=
  text = [] \/ exists d, strptime text = Some d.

(** The due date stored for an acceptable text: none for the empty text. *)
Definition stored_due (text : pystr) : option pystr :=
  if nonempty text then Some text else None.

(** The state a set-status form carries is one of the two known ones. *)
Definition state_known (req : Request) : Prop :=
  form req !! "state" = Some (str "completed")
  \/ form req !! "state" = Some (str "active").

(** The world after a [write_text] that put [content] in the file. *)
Definition written (content : pystr) (w : World) : World :=
  mkWorld (Text content) WriteOk (S (writes w)) (clock_reads w) (uuid_draws w).

(** The answer of a handler is a rejection: an error is flashed, and the
    store is as it was when the request arrived. *)
Definition rejected (w : World) (r : outcome Response * World) : Prop :=
  exists msg params w',
    r = (Returned (mkResponse (msg, error) params), w') /\ same_store w w'.

(** The answer of a handler is an acceptance that left [tasks] in the file. *)
Definition accepted `{Runtime} (tasks : list Task)
    (r : outcome Response * World) : Prop :=
  exists msg params w',
    r = (Returned (mkResponse (msg, success) params), w')
    /\ disk w' = Text (json_dumps (payload tasks)).

(** The codec reads back the serialisation of this collection: the text is
    not blank and decodes to the value that was printed. *)
Definition codec_ok `{Runtime} (tasks : list Task) : Prop :=
  strip (json_dumps (payload tasks)) <> []
  /\ json_loads (json_dumps (payload tasks)) = Some (payload tasks).

(** The task [create_task] builds for a form, in the world [load_tasks] left:
    the id is the next UUID, the two stamps are the next two readings of the
    clock. *)
Definition created `{Runtime} (req : Request) (w1 : World) : Task :=
  mkTask (title_text req) (description_text req) (stored_due (due_text req))
         false (uuid_at (uuid_draws w1))
         (now_at (clock_reads w1)) (now_at (S (clock_reads w1))).

(** The task [update_task] leaves in place of [task]. *)
Definition updated `{Runtime} (req : Request) (w1 : World) (task : Task)
  : Task :=
  mkTask (title_text req) (description_text req) (stored_due (due_text req))
         (bool_decide (form req !! "completed" = Some (str "1")))
         (id task) (created_at task) (now_at (clock_reads w1)).

(** The item [a] has the key [k] under the key function [f]. *)
Definition has_key {A} (f : A -> key) (k : key) (a : A) : bool :=
  bool_decide (f a = k).

(** A task as the handlers build it: the title is not blank and carries no
    surrounding whitespace, the description carries none either, and the due
    date, if any, is a trimmed text that parses as a date. *)
Definition well_formed `{Runtime} (t : Task) : Prop :=
  title t <> [] /\ strip (title t) = title t
  /\ strip (description t) = description t
  /\ (due_date t = None
      \/ exists d date,
           due_date t = Some d /\ d <> [] /\ strip d = d
           /\ strptime d = Some date).

(** The answer of a handler is a success that left some collection with the
    property [P] in the file. *)
Definition wrote `{Runtime} (P : list Task -> Prop)
    (r : outcome Response * World) : Prop :=
  exists tasks', accepted tasks' r /\ P tasks'.

(** The three status values the redirect passes on. *)
Definition known_status (st : pystr) : bool :=
  bool_decide (st ∈ [str "all"; str "active"; str "completed"]).

(** The tasks left once every task with the id [task_id] is taken out. *)
Definition without_id (task_id : pystr) (tasks : list Task) : list Task :=
  List.filter (fun task => negb (bool_decide (id task = task_id))) tasks.

(** The first task of the list with the id [task_id] is [task], at the
    position [pos]. *)
Definition first_with_id (tasks : list Task) (task_id : pystr) (pos : nat)
    (task : Task) : Prop :=
  tasks !! pos = Some task /\ id task = task_id
  /\ forall j t, tasks !! j = Some t -> j < pos -> id t <> task_id.

(** The world holds the serialisation of [tasks] in its file, so that the
    next [load] yields [tasks], as far as the codec reads its own output. *)
Definition stores `{Runtime} (tasks : list Task) (w : World) : Prop :=
  disk w = Text (json_dumps (payload tasks))
  /\ (codec_ok tasks ->
      load w = (Returned tasks, after_reading (length tasks) w)).

(** The four commands, for one task id and one request. *)
Definition commands `{Runtime} (task_id : pystr) (req : Request)
  : list (M Response) :=
  [create_task req; update_status task_id req; update_task task_id req;
   delete_task task_id req].

(** The outcome is that of saving some collection, with nothing written
    before, and answering with a success if the save returns. *)
Definition attempted_save `{Runtime} (w : World)
    (r : outcome Response * World) : Prop :=
  exists tasks' w2 msg params,
    same_store w w2
    /\ r = (_ <~ save_tasks tasks' ;;
            ret (mkResponse (msg, success) params)) w2.

(** The collections a command can leave in the file when it succeeds on the
    loaded collection [tasks], [w1] being the world after loading. *)
Inductive result_of `{Runtime} (task_id : pystr) (req : Request) (w1 : World)
    (tasks : list Task) : list Task -> Prop :=
| result_create :
    title_text req <> [] -> due_text_ok (due_text req) ->
    result_of task_id req w1 tasks (tasks ++ [created req w1])
| result_status pos task :
    find_task tasks task_id = Some (pos, task) -> state_known req ->
    result_of task_id req w1 tasks
      (<[pos := touched task
                  (bool_decide (form req !! "state" = Some (str "completed")))
                  (now_at (clock_reads w1))]> tasks)
| result_update pos task :
    find_task tasks task_id = Some (pos, task) ->
    title_text req <> [] -> due_text_ok (due_text req) ->
    result_of task_id req w1 tasks (<[pos := updated req w1 task]> tasks)
| result_delete :
    lookup_by_id tasks task_id <> None ->
    result_of task_id req w1 tasks (without_id task_id tasks).

(** The file now holds the loaded collection with [task'] in place of [task]
    at the position [pos]: every other position is as it was, the task keeps
    its id and its creation stamp, and it is still the first task found under
    the id [task_id]. *)
Definition replaced_in_place `{Runtime} (tasks : list Task) (task_id : pystr)
    (pos : nat) (task task' : Task) (w' : World) : Prop :=
  let tasks' := <[pos := task']> tasks in
  stores tasks' w'
  /\ tasks' !! pos = Some task'
  /\ (forall j, j <> pos -> tasks' !! j = tasks !! j)
  /\ length tasks' = length tasks
  /\ id task' = id task /\ created_at task' = created_at task
  /\ first_with_id tasks' task_id pos task'.

(** The task [t] under the id [i]. *)
Definition with_id (i : pystr) (t : Task) : Task :=
  mkTask (title t) (description t) (due_date t) (completed t) i
         (created_at t) (updated_at t).

(** The command passed its checks and went on to save [tasks']: nothing was
    written before, and its outcome is that of [save_tasks tasks'] followed,
    if the save returns, by an answer that flashes a success. *)
Definition reaches_save `{Runtime} (tasks' : list Task) (w : World)
    (r : outcome Response * World) : Prop :=
  exists w2 msg params,
    same_store w w2
    /\ r = (_ <~ save_tasks tasks' ;;
            ret (mkResponse (msg, success) params)) w2.

(** [p] is the beginning of [s], and not all of it. *)
Definition proper_prefix (p s : pystr) : Prop :=
  exists q, q <> [] /\ s = p ++ q.

(** * Facts *)

(** ** Text: substrings, order, trimming *)

Module PyStrFacts.

Lemma starts_with_spec (k s : pystr) :
  starts_with k s = true <-> exists b, s = k ++ b.
Proof.
  revert s. induction k as [|a k IH]; intros s; simpl.
  - split; [intros _; by exists s | done].
  - destruct s as [|b s].
    + split; [done | intros [x Hx]; discriminate Hx].
    + rewrite andb_true_iff, N.eqb_eq, IH. split.
      * intros [-> [x ->]]. by exists x.
      * intros [x Hx]. injection Hx as -> ->. eauto.
Qed.

(** [contains k s] holds exactly when [k] is a contiguous part of [s]. *)
Lemma contains_spec (k s : pystr) :
  contains k s = true <-> exists a b, s = a ++ k ++ b.
Proof.
  induction s as [|c s IH].
  - simpl. rewrite orb_false_r, starts_with_spec. split.
    + intros [b Hb]. by exists [], b.
    + intros [a [b Hab]]. symmetry in Hab.
      apply app_eq_nil in Hab as [-> Hab]. apply app_eq_nil in Hab as [-> ->].
      by exists [].
  - change (contains k (c :: s))
      with (starts_with k (c :: s) || contains k s).
    rewrite orb_true_iff, starts_with_spec, IH. split.
    + intros [[b Hb] | [a [b ->]]].
      * by exists [], b.
      * by exists (c :: a), b.
    + intros [[|x a] [b Hab]].
      * left. by exists b.
      * right. injection Hab as -> ->. by exists a, b.
Qed.

Lemma ltb_irrefl (a : pystr) : ltb a a = false.
Proof.
  induction a as [|x a IH]; [done|]. simpl. by rewrite N.ltb_irrefl.
Qed.

Lemma ltb_cons (x y : N) (a b : pystr) :
  ltb (x :: a) (y :: b) = true <-> (x < y)%N \/ (x = y /\ ltb a b = true).
Proof.
  simpl. destruct (N.ltb_spec x y) as [Hxy|Hxy]; [split; auto|].
  destruct (N.ltb_spec y x) as [Hyx|Hyx].
  - split; [done | intros [?|[? _]]; lia].
  - assert (x = y) by lia. split; [auto | intros [?|[_ ?]]; [lia | done]].
Qed.

Lemma ltb_trans (a b c : pystr) :
  ltb a b = true -> ltb b c = true -> ltb a c = true.
Proof.
  revert b c. induction a as [|x a IH]; intros [|y b] [|z c]; try done.
  rewrite !ltb_cons. intros [?|[-> Hab]] [?|[-> Hbc]].
  - left. lia.
  - by left.
  - by left.
  - right. split; [done | by eapply IH].
Qed.

(** Two texts neither of which is below the other are the same text. *)
Lemma ltb_antisym (a b : pystr) :
  ltb a b = false -> ltb b a = false -> a = b.
Proof.
  revert b. induction a as [|x a IH]; intros [|y b]; try done.
  simpl. destruct (N.ltb_spec x y); [done|].
  destruct (N.ltb_spec y x); [done|].
  intros Hab Hba. assert (x = y) as -> by lia. f_equal. by apply IH.
Qed.

Lemma ltb_asym (a b : pystr) : ltb a b = true -> ltb b a = false.
Proof.
  intros Hab. destruct (ltb b a) eqn:Hba; [|done].
  pose proof (ltb_trans _ _ _ Hab Hba) as Haa.
  by rewrite ltb_irrefl in Haa.
Qed.

(** [a < b <= c] gives [a < c]. *)
Lemma lt_le_trans (a b c : pystr) : lt a b -> le b c -> lt a c.
Proof.
  unfold lt, le. intros Hab Hcb.
  destruct (ltb a c) eqn:Hac; [done|].
  destruct (ltb c a) eqn:Hca.
  - pose proof (ltb_trans _ _ _ Hca Hab). congruence.
  - apply ltb_antisym in Hac; [|done]. subst c. congruence.
Qed.

Lemma lstrip_shape (s : pystr) :
  lstrip s = [] \/ exists c r, lstrip s = c :: r /\ is_space c = false.
Proof.
  induction s as [|c s IH]; [by left|]. simpl.
  destruct (is_space c) eqn:Hc; [done|]. right. by exists c, s.
Qed.

Lemma lstrip_fixed (c : N) (r : pystr) :
  is_space c = false -> lstrip (c :: r) = c :: r.
Proof. intros Hc. simpl. by rewrite Hc. Qed.

Lemma lstrip_snoc (l : pystr) (c : N) :
  is_space c = false -> exists l', lstrip (l ++ [c]) = l' ++ [c].
Proof.
  intros Hc. induction l as [|x l IH]; simpl.
  - rewrite Hc. by exists [].
  - destruct (is_space x); [done|]. by exists (x :: l).
Qed.

Lemma rstrip_head (c : N) (r : pystr) :
  is_space c = false -> exists r', rstrip (c :: r) = c :: r'.
Proof.
  intros Hc. unfold rstrip. simpl.
  destruct (lstrip_snoc (rev r) c Hc) as [l' ->].
  rewrite rev_app_distr. simpl. by exists (rev l').
Qed.

Lemma rstrip_idem (s : pystr) : rstrip (rstrip s) = rstrip s.
Proof.
  unfold rstrip. rewrite rev_involutive. f_equal.
  destruct (lstrip_shape (rev s)) as [->|[c [r [-> Hc]]]]; [done|].
  by apply lstrip_fixed.
Qed.

(** Trimming a trimmed text changes nothing. *)
Lemma strip_idem (s : pystr) : strip (strip s) = strip s.
Proof.
  unfold strip at 1.
  assert (lstrip (strip s) = strip s) as ->.
  { unfold strip. destruct (lstrip_shape s) as [->|[c [r [-> Hc]]]]; [done|].
    destruct (rstrip_head c r Hc) as [r' ->]. by apply lstrip_fixed. }
  unfold strip. apply rstrip_idem.
Qed.

Lemma strip_nil : strip [] = [].
Proof. done. Qed.


Lemma nonempty_true (s : pystr) : nonempty s = true <-> s <> [].
Proof. by destruct s. Qed.

End PyStrFacts.
Import PyStrFacts.

(** ** Sort keys and the stable sort *)

Module SortFacts.

Lemma key_ltb_spec (a b : key) : key_ltb a b = true <-> key_lt a b.
Proof.
  destruct a as [[c1 d1] u1], b as [[c2 d2] u2]. unfold key_ltb, key_lt, lt.
  destruct c1, c2; simpl.
  - case_bool_decide as Hd; simpl.
    + subst. split; [intros Hu; right; split; [done|]; right; done|].
      intros [[? ?]|[_ [Hd|[_ Hu]]]]; [done| |done].
      by rewrite ltb_irrefl in Hd.
    + split; [intros Hd'; right; split; [done|]; by left|].
      intros [[? ?]|[_ [Hd'|[? _]]]]; done.
  - split; [done|]. intros [[? ?]|[? _]]; done.
  - split; [by left | done].
  - case_bool_decide as Hd; simpl.
    + subst. split; [intros Hu; right; split; [done|]; right; done|].
      intros [[? ?]|[_ [Hd|[_ Hu]]]]; [done| |done].
      by rewrite ltb_irrefl in Hd.
    + split; [intros Hd'; right; split; [done|]; by left|].
      intros [[? ?]|[_ [Hd'|[? _]]]]; done.
Qed.

Lemma key_ltb_irrefl (a : key) : key_ltb a a = false.
Proof.
  destruct a as [[c d] u]. unfold key_ltb. rewrite eqb_reflx. simpl.
  rewrite bool_decide_eq_true_2 by done. simpl. apply ltb_irrefl.
Qed.

Lemma key_ltb_trans (a b c : key) :
  key_ltb a b = true -> key_ltb b c = true -> key_ltb a c = true.
Proof.
  rewrite !key_ltb_spec.
  destruct a as [[c1 d1] u1], b as [[c2 d2] u2], c as [[c3 d3] u3].
  unfold key_lt, lt.
  intros [[-> ->]|[-> Hab]] [[Hc2 Hc3]|[Hc Hbc]]; subst.
  - done.
  - by left.
  - by left.
  - right. split; [done|].
    destruct Hab as [Hab|[-> Hab]], Hbc as [Hbc|[-> Hbc]].
    + left. by eapply ltb_trans.
    + by left.
    + by left.
    + right. split; [done | by eapply ltb_trans].
Qed.

(** Keys are totally ordered: two keys neither below the other are equal. *)
Lemma key_ltb_antisym (a b : key) :
  key_ltb a b = false -> key_ltb b a = false -> a = b.
Proof.
  destruct a as [[c1 d1] u1], b as [[c2 d2] u2]. unfold key_ltb.
  destruct c1, c2; simpl; try done.
  - repeat case_bool_decide; simpl; subst; try done.
    + intros H1 H2. f_equal. by apply ltb_antisym.
    + intros H1 H2. exfalso. by pose proof (ltb_antisym _ _ H1 H2).
  - repeat case_bool_decide; simpl; subst; try done.
    + intros H1 H2. f_equal. by apply ltb_antisym.
    + intros H1 H2. exfalso. by pose proof (ltb_antisym _ _ H1 H2).
Qed.

Lemma key_ltb_asym (a b : key) : key_ltb a b = true -> key_ltb b a = false.
Proof.
  intros Hab. destruct (key_ltb b a) eqn:Hba; [|done].
  pose proof (key_ltb_trans _ _ _ Hab Hba) as Haa.
  by rewrite key_ltb_irrefl in Haa.
Qed.

Lemma key_le_refl (a : key) : key_le a a.
Proof. apply key_ltb_irrefl. Qed.

Lemma key_le_trans (a b c : key) : key_le a b -> key_le b c -> key_le a c.
Proof.
  unfold key_le. intros Hba Hcb.
  destruct (key_ltb c a) eqn:Hca; [|done].
  destruct (key_ltb a b) eqn:Hab.
  - pose proof (key_ltb_trans _ _ _ Hca Hab). congruence.
  - pose proof (key_ltb_antisym _ _ Hab Hba). subst b. congruence.
Qed.

Lemma key_le_antisym (a b : key) : key_le a b -> key_le b a -> a = b.
Proof. unfold key_le. intros H1 H2. by apply key_ltb_antisym. Qed.

Section Sorted.
Context {A : Type} (f : A -> key).

Lemma insert_sorted_perm (x : A) (l : list A) :
  insert_sorted f x l ≡ₚ x :: l.
Proof.
  induction l as [|y l IH]; simpl; [done|].
  destruct (key_ltb (f y) (f x)); [|done].
  rewrite IH. apply Permutation_swap.
Qed.

(** The result holds the same items, each as often as the input. *)
Lemma sorted_perm (l : list A) : sorted f l ≡ₚ l.
Proof.
  induction l as [|x l IH]; simpl; [done|].
  by rewrite insert_sorted_perm, IH.
Qed.

Lemma insert_sorted_ascending (x : A) (l : list A) :
  StronglySorted (fun a b => key_le (f a) (f b)) l ->
  StronglySorted (fun a b => key_le (f a) (f b)) (insert_sorted f x l).
Proof.
  induction 1 as [|y l Hl IH Hy]; simpl.
  - repeat constructor.
  - destruct (key_ltb (f y) (f x)) eqn:Hyx.
    + constructor; [done|].
      rewrite insert_sorted_perm. constructor; [|done].
      by apply key_ltb_asym.
    + constructor; [by constructor|].
      constructor; [done|].
      eapply Forall_impl; [exact Hy|]. simpl. intros z Hz.
      by eapply key_le_trans.
Qed.

(** The result is in ascending key order. *)
Lemma sorted_ascending (l : list A) :
  StronglySorted (fun a b => key_le (f a) (f b)) (sorted f l).
Proof.
  induction l as [|x l IH]; simpl; [constructor|].
  by apply insert_sorted_ascending.
Qed.

Lemma insert_sorted_stable (k : key) (x : A) (l : list A) :
  List.filter (fun a => bool_decide (f a = k)) (insert_sorted f x l)
  = List.filter (fun a => bool_decide (f a = k)) (x :: l).
Proof.
  induction l as [|y l IH]; [done|].
  simpl insert_sorted. destruct (key_ltb (f y) (f x)) eqn:Hyx; [|done].
  simpl in *. rewrite IH.
  repeat case_bool_decide; try done.
  exfalso. assert (f y = f x) as Heq by congruence.
  rewrite Heq, key_ltb_irrefl in Hyx. done.
Qed.

(** Items with the same key keep the order they had in the input. *)
Lemma sorted_stable (k : key) (l : list A) :
  List.filter (fun a => bool_decide (f a = k)) (sorted f l)
  = List.filter (fun a => bool_decide (f a = k)) l.
Proof.
  induction l as [|x l IH]; [done|].
  simpl sorted. rewrite insert_sorted_stable. simpl. by rewrite IH.
Qed.

End Sorted.
End SortFacts.
Import SortFacts.

(** ** The stable sort is determined by its description *)

Section StableUnique.
Context {A : Type} (f : A -> key).

Lemma filter_key_head (k : key) (a : A) (l : list A) :
  f a = k ->
  List.filter (has_key f k) (a :: l) = a :: List.filter (has_key f k) l.
Proof.
  intros Hk. simpl. unfold has_key at 1. by rewrite bool_decide_eq_true_2.
Qed.

Lemma filter_key_skip (k : key) (a : A) (l : list A) :
  f a <> k -> List.filter (has_key f k) (a :: l) = List.filter (has_key f k) l.
Proof.
  intros Hk. simpl. unfold has_key at 1. by rewrite bool_decide_eq_false_2.
Qed.

Lemma filter_key_In (k : key) (a : A) (l : list A) :
  In a (List.filter (has_key f k) l) -> In a l /\ f a = k.
Proof.
  rewrite filter_In. unfold has_key. intros [Hin Hk].
  by apply bool_decide_eq_true in Hk.
Qed.

(** The first item of an ascending list has the least key among the items
    of any list with the same items per key. *)
Lemma head_least (a b : A) (r1 r2 : list A) :
  StronglySorted (fun x y => key_le (f x) (f y)) (a :: r1) ->
  (forall k, List.filter (has_key f k) (a :: r1)
             = List.filter (has_key f k) (b :: r2)) ->
  key_le (f a) (f b).
Proof.
  intros Hs Hk. specialize (Hk (f b)).
  rewrite (filter_key_head (f b) b r2) in Hk by done.
  assert (In b (List.filter (has_key f (f b)) (a :: r1))) as Hin
    by (rewrite Hk; by left).
  apply filter_key_In in Hin as [[<-|Hin] _]; [apply key_le_refl|].
  apply StronglySorted_inv in Hs as [_ Hall].
  rewrite Forall_forall in Hall. apply Hall. by apply list_elem_of_In.
Qed.

Lemma ascending_stable_unique (out1 out2 : list A) :
  StronglySorted (fun x y => key_le (f x) (f y)) out1 ->
  StronglySorted (fun x y => key_le (f x) (f y)) out2 ->
  (forall k, List.filter (has_key f k) out1 = List.filter (has_key f k) out2) ->
  out1 = out2.
Proof.
  revert out2. induction out1 as [|a r1 IH]; intros [|b r2] Hs1 Hs2 Hk.
  - done.
  - specialize (Hk (f b)). by rewrite filter_key_head in Hk.
  - specialize (Hk (f a)). by rewrite filter_key_head in Hk.
  - assert (f a = f b) as Hab.
    { apply key_le_antisym.
      - by eapply head_least.
      - eapply head_least; [done|]. intros k. symmetry. apply Hk. }
    pose proof (Hk (f a)) as Hka.
    rewrite filter_key_head in Hka by done.
    rewrite filter_key_head in Hka by done.
    injection Hka as <- Hka.
    f_equal. apply IH.
    + by apply StronglySorted_inv in Hs1 as [? _].
    + by apply StronglySorted_inv in Hs2 as [? _].
    + intros k. destruct (decide (f a = k)) as [<-|Hne]; [done|].
      specialize (Hk k). by rewrite !filter_key_skip in Hk.
Qed.

(** Any arrangement of [l] that is ascending in the key and keeps items of
    equal key in their input order is the list [sorted] returns: the model
    of the builtin is the only function that fits its documentation. *)
Lemma sorted_unique (l out : list A) :
  StronglySorted (fun x y => key_le (f x) (f y)) out ->
  (forall k, List.filter (fun a => bool_decide (f a = k)) out
             = List.filter (fun a => bool_decide (f a = k)) l) ->
  out = sorted f l.
Proof.
  intros Hs Hk.
  apply ascending_stable_unique; [done | apply sorted_ascending |].
  intros k. unfold has_key. rewrite Hk. symmetry. apply sorted_stable.
Qed.

End StableUnique.

(** ** The effect monad *)

Module EffectFacts.

Lemma bind_returned {A B} (m : M A) (k : A -> M B) (w w' : World) (a : A) :
  m w = (Returned a, w') -> bind m k w = k a w'.
Proof. unfold bind. by intros ->. Qed.

Lemma bind_raised {A B} (m : M A) (k : A -> M B) (w w' : World) (e : exn) :
  m w = (Raised e, w') -> bind m k w = (Raised e, w').
Proof. unfold bind. by intros ->. Qed.

Lemma same_store_refl (w : World) : same_store w w.
Proof. done. Qed.

Lemma same_store_trans (w1 w2 w3 : World) :
  same_store w1 w2 -> same_store w2 w3 -> same_store w1 w3.
Proof. unfold same_store. intros (?&?&?) (?&?&?). split_and!; congruence. Qed.

Lemma reads_only_ret {A} (a : A) : reads_only (ret a).
Proof. by intros w. Qed.

Lemma reads_only_raise {A} (e : exn) : reads_only (@raise A e).
Proof. by intros w. Qed.

Lemma reads_only_bind {A B} (m : M A) (k : A -> M B) :
  reads_only m -> (forall a, reads_only (k a)) -> reads_only (bind m k).
Proof.
  intros Hm Hk w. unfold bind. specialize (Hm w).
  destruct (m w) as [[a|e|] w1]; simpl in *; [|done|done].
  eapply same_store_trans; [exact Hm | apply Hk].
Qed.

Lemma reads_only_try {A} (body handler : M A) (classes : list exn) :
  reads_only body -> reads_only handler ->
  reads_only (try_except body classes handler).
Proof.
  intros Hb Hh w. unfold try_except. specialize (Hb w).
  destruct (body w) as [[a|e|] w1]; simpl in *; try done.
  destruct (existsb _ _); [|done].
  eapply same_store_trans; [exact Hb | apply Hh].
Qed.

Lemma reads_only_for_each {A B} (f : A -> M B) (l : list A) :
  (forall a, reads_only (f a)) -> reads_only (for_each f l).
Proof.
  intros Hf. induction l as [|a l IH]; simpl.
  - apply reads_only_ret.
  - apply reads_only_bind; [apply Hf|]. intros b.
    apply reads_only_bind; [apply IH|]. intros bs. apply reads_only_ret.
Qed.

End EffectFacts.
Import EffectFacts.

(** ** Records and the store *)

Section ModelFacts.
Context `{Runtime}.

Lemma reads_only_now : reads_only _now.
Proof. by intros w. Qed.

Lemma reads_only_uuid4_hex : reads_only uuid4_hex.
Proof. by intros w. Qed.

Lemma reads_only_field_str (v : pyval) : reads_only (field_str v).
Proof. by destruct v; intros w. Qed.

Lemma reads_only_field_opt_str (v : pyval) : reads_only (field_opt_str v).
Proof. by destruct v; intros w. Qed.

Lemma reads_only_field_bool (v : pyval) : reads_only (field_bool v).
Proof. by destruct v; intros w. Qed.

Lemma reads_only_from_dict (data : pyval) : reads_only (from_dict data).
Proof.
  unfold from_dict.
  repeat (first
    [ apply reads_only_ret | apply reads_only_now | apply reads_only_uuid4_hex
    | apply reads_only_field_str | apply reads_only_field_opt_str
    | apply reads_only_field_bool
    | apply reads_only_bind; [|intros ?] ]).
  destruct data; first [apply reads_only_ret | apply reads_only_raise].
Qed.

(** [load] only reads: the file, the device and the count of writes are the
    same after it, whatever it returns or raises. *)
Lemma reads_only_load : reads_only load.
Proof.
  unfold load. apply reads_only_bind; [by intros w|]. intros present.
  destruct present; simpl; [|apply reads_only_ret].
  apply reads_only_bind.
  - apply reads_only_try; [|apply reads_only_ret].
    apply reads_only_bind.
    + intros w. unfold read_text. by destruct (disk w).
    + intros content. destruct (nonempty (strip content)); simpl;
        [|apply reads_only_ret].
      apply reads_only_bind; [|intros ?; apply reads_only_ret].
      unfold loads. destruct (json_loads content);
        [apply reads_only_ret | apply reads_only_raise].
  - intros [data|]; [|apply reads_only_ret].
    apply reads_only_bind.
    + destruct data; first [apply reads_only_ret | apply reads_only_raise].
    + intros items. apply reads_only_for_each, reads_only_from_dict.
Qed.

(** Reading back the record of a task gives the task; one UUID is drawn and
    the clock is read twice for the defaults, which are then not used. *)
Lemma from_dict_to_dict (t : Task) (w : World) :
  from_dict (PDict (to_dict t)) w = (Returned t, after_reading 1 w).
Proof. by destruct t as [? ? [?|] ? ? ? ?]. Qed.

Lemma after_reading_0 (w : World) : after_reading 0 w = w.
Proof. by destruct w. Qed.

Lemma after_reading_S (n : nat) (w : World) :
  after_reading n (after_reading 1 w) = after_reading (S n) w.
Proof. unfold after_reading. simpl. f_equal; lia. Qed.

Lemma for_each_from_dict (tasks : list Task) (w : World) :
  for_each from_dict (map (fun task => PDict (to_dict task)) tasks) w
  = (Returned tasks, after_reading (length tasks) w).
Proof.
  revert w. induction tasks as [|t tasks IH]; intros w.
  - simpl. by rewrite after_reading_0.
  - change (for_each from_dict (map _ (t :: tasks)))
      with (b <~ from_dict (PDict (to_dict t)) ;;
            bs <~ for_each from_dict
                    (map (fun task => PDict (to_dict task)) tasks) ;;
            ret (b :: bs)).
    erewrite bind_returned by apply from_dict_to_dict.
    erewrite bind_returned by apply IH.
    unfold ret. simpl length. by rewrite after_reading_S.
Qed.

Lemma load_missing (w : World) : disk w = Missing -> load w = (Returned [], w).
Proof. intros Hd. unfold load, bind, path_exists. by rewrite Hd. Qed.

Lemma load_unreadable (w : World) :
  disk w = Unreadable -> load w = (Returned [], w).
Proof.
  intros Hd. unfold load, bind, path_exists, try_except, read_text.
  rewrite Hd. simpl. by rewrite Hd.
Qed.

Lemma load_blank (w : World) (content : pystr) :
  disk w = Text content -> strip content = [] -> load w = (Returned [], w).
Proof.
  intros Hd Hb. unfold load, bind, path_exists, try_except, read_text.
  rewrite Hd. simpl. rewrite Hd, Hb. done.
Qed.

Lemma load_undecodable (w : World) (content : pystr) :
  disk w = Text content -> json_loads content = None ->
  json_error content = JSONDecodeError ->
  load w = (Returned [], w).
Proof.
  intros Hd Hj He.
  unfold load, bind, path_exists, try_except, read_text, loads.
  rewrite Hd. simpl. rewrite Hd.
  destruct (nonempty (strip content)); simpl; [|done].
  by rewrite Hj, He.
Qed.

(** The exceptions of [json.loads] that are not [JSONDecodeError] leave
    [load]: the [except] clause names [OSError] and [JSONDecodeError]
    only. *)
Lemma load_decoder_raises (w : World) (content : pystr) (e : exn) :
  disk w = Text content -> strip content <> [] ->
  json_loads content = None -> json_error content = e ->
  is_instance e OSError = false -> is_instance e JSONDecodeError = false ->
  load w = (Raised e, w).
Proof.
  intros Hd Hb Hj He Ho Hde.
  unfold load, bind, path_exists, try_except, read_text, loads.
  rewrite Hd. simpl. rewrite Hd.
  apply nonempty_true in Hb. rewrite Hb. simpl.
  rewrite Hj, He. simpl. by rewrite Ho, Hde.
Qed.

Lemma load_not_utf8 (w : World) :
  disk w = NotUtf8 -> load w = (Raised UnicodeDecodeError, w).
Proof.
  intros Hd. unfold load, bind, path_exists, try_except, read_text.
  rewrite Hd. simpl. by rewrite Hd.
Qed.

(** A file whose text decodes: [load] iterates the decoded value and reads a
    record from each item. *)
Lemma load_decoded (w : World) (content : pystr) (data : pyval) :
  disk w = Text content -> strip content <> [] ->
  json_loads content = Some data ->
  load w = (items <~ iterate data ;; for_each from_dict items) w.
Proof.
  intros Hd Hb Hj. unfold load at 1, path_exists, try_except, read_text, loads.
  unfold bind at 1 2 3. rewrite Hd. simpl. rewrite Hd.
  apply nonempty_true in Hb. rewrite Hb. simpl. unfold bind at 1.
  by rewrite Hj.
Qed.

(** A file holding the serialisation of a collection loads as that
    collection, provided the codec reads back what it printed. *)
Lemma load_saved (w : World) (tasks : list Task) :
  disk w = Text (json_dumps (payload tasks)) ->
  strip (json_dumps (payload tasks)) <> [] ->
  json_loads (json_dumps (payload tasks)) = Some (payload tasks) ->
  load w = (Returned tasks, after_reading (length tasks) w).
Proof.
  intros Hd Hb Hj. rewrite (load_decoded w _ _ Hd Hb Hj).
  unfold payload, iterate. unfold bind, ret. apply for_each_from_dict.
Qed.

End ModelFacts.

Section LoadWorld.
Context `{Runtime}.

(** A record that was read drew one UUID and read the clock twice. *)
Lemma from_dict_world (data : pyval) (w w' : World) (t : Task) :
  from_dict data w = (Returned t, w') -> w' = after_reading 1 w.
Proof.
  unfold from_dict. destruct data as [| | | | |items|d]; try done.
  unfold bind, get_method, ret, uuid4_hex, _now. simpl.
  repeat match goal with
         | |- context [field_str ?v] => destruct v; simpl; try done
         | |- context [field_opt_str ?v] => destruct v; simpl; try done
         | |- context [field_bool ?v] => destruct v; simpl; try done
         end;
    by intros [= _ <-].
Qed.

Lemma for_each_from_dict_world (items : list pyval) (w w' : World)
    (tasks : list Task) :
  for_each from_dict items w = (Returned tasks, w') ->
  w' = after_reading (length tasks) w.
Proof.
  revert w w' tasks. induction items as [|x items IH]; intros w w' tasks.
  - intros [= <- <-]. by rewrite after_reading_0.
  - simpl. unfold bind at 1.
    destruct (from_dict x w) as [[t|e|] w1] eqn:Hx; try done.
    apply from_dict_world in Hx. subst w1. unfold bind at 1.
    destruct (for_each from_dict items (after_reading 1 w))
      as [[ts|e|] w2] eqn:Hr; try done.
    apply IH in Hr. subst w2. intros [= <- <-]. simpl length.
    by rewrite after_reading_S.
Qed.

(** [load] leaves the world it found, advanced by the readings of the
    records it returned. *)
Lemma load_world (w w1 : World) (tasks : list Task) :
  load w = (Returned tasks, w1) -> w1 = after_reading (length tasks) w.
Proof.
  unfold load, path_exists, try_except, read_text, loads.
  unfold bind at 1. simpl.
  destruct (disk w) as [| | |content] eqn:Hd; simpl.
  - intros [= <- <-]. by rewrite after_reading_0.
  - unfold bind. simpl. rewrite Hd. simpl.
    intros [= <- <-]. by rewrite after_reading_0.
  - unfold bind. simpl. by rewrite Hd.
  - unfold bind at 1 2. simpl. rewrite Hd.
    destruct (nonempty (strip content)); simpl.
    + unfold bind at 1. destruct (json_loads content) as [data|]; simpl.
      * unfold bind at 1.
        destruct (iterate data w) as [[items|e|] w0] eqn:Hit; try done.
        assert (w0 = w) as ->.
        { by destruct data; simpl in Hit; injection Hit. }
        apply for_each_from_dict_world.
      * destruct (json_error content); simpl; try done;
          intros [= <- <-]; by rewrite after_reading_0.
    + intros [= <- <-]. by rewrite after_reading_0.
Qed.

(** A decoded array whose first item is not an object makes [load] raise:
    [from_dict] looks up [get] on the item. *)
Lemma load_raises_on_non_record (w : World) (content : pystr)
    (item : pyval) (rest : list pyval) :
  disk w = Text content -> strip content <> [] ->
  json_loads content = Some (PList (item :: rest)) ->
  (forall d, item <> PDict d) ->
  load w = (Raised AttributeError, w).
Proof.
  intros Hd Hb Hj Hitem. rewrite (load_decoded w _ _ Hd Hb Hj).
  unfold iterate. unfold bind at 1, ret at 1. simpl. unfold bind at 1.
  unfold from_dict, get_method. unfold bind at 1.
  destruct item; try done. by specialize (Hitem entries).
Qed.

(** A decoded object with at least one key makes [load] raise: iterating it
    yields its keys, and a key is a text, not a record. *)
Lemma load_raises_on_object (w : World) (content key : pystr) (v : pyval)
    (rest : list (pystr * pyval)) :
  disk w = Text content -> strip content <> [] ->
  json_loads content = Some (PDict ((key, v) :: rest)) ->
  load w = (Raised AttributeError, w).
Proof.
  intros Hd Hb Hj. rewrite (load_decoded w _ _ Hd Hb Hj). done.
Qed.

(** A decoded [null], boolean or number makes [load] raise: it cannot be
    iterated. *)
Lemma load_raises_on_scalar (w : World) (content : pystr) (data : pyval) :
  disk w = Text content -> strip content <> [] ->
  json_loads content = Some data ->
  match data with
  | PNone | PBool _ | PInt _ | PFloat _ => True
  | _ => False
  end ->
  load w = (Raised TypeError, w).
Proof.
  intros Hd Hb Hj Hs. rewrite (load_decoded w _ _ Hd Hb Hj).
  by destruct data.
Qed.

End LoadWorld.


(** ** The task entity *)

Section EntityClaims.
Context `{Runtime}.

Lemma date_ltb_spec (d1 d2 : date) :
  date_ltb d1 d2 = true <-> date_before d1 d2.
Proof.
  unfold date_ltb, date_before.
  rewrite !orb_true_iff, !andb_true_iff, !orb_true_iff, !andb_true_iff,
    !Z.ltb_lt, !Z.eqb_eq.
  tauto.
Qed.

Lemma truthy_some (o : option pystr) :
  truthy o = true <-> exists d, o = Some d /\ d <> [].
Proof.
  destruct o as [[|c d]|]; simpl.
  - split; [done | by intros (d & [= <-] & ?)].
  - split; [by exists (c :: d) | done].
  - split; [done | by intros (d & ? & ?)].
Qed.

(** C7: [is_overdue] answers true exactly when the task has a due date that
    parses under the format, lies strictly before today, and the task is not
    completed.  It is a total function: with no due date, with one that does
    not parse (the [ValueError] is caught), with one on or after today, and
    for a completed task, it answers false. *)
Theorem is_overdue_iff (today : date) (t : Task) :
  (is_overdue today t = true <->
     exists d due,
       due_date t = Some d /\ strptime d = Some due
       /\ date_before due today /\ completed t = false)
  /\ (due_date t = None -> is_overdue today t = false)
  /\ (forall d, due_date t = Some d -> strptime d = None ->
        is_overdue today t = false)
  /\ (forall d due, due_date t = Some d -> strptime d = Some due ->
        ~ date_before due today -> is_overdue today t = false)
  /\ (completed t = true -> is_overdue today t = false).
Proof.
  assert (is_overdue today t = true <->
          exists d due,
            due_date t = Some d /\ strptime d = Some due
            /\ date_before due today /\ completed t = false) as Hiff.
  { unfold is_overdue.
    destruct (due_date t) as [[|c d]|] eqn:Hdue; simpl.
    - split; [done|]. intros (d & due & [= <-] & Hp & _).
      by rewrite strptime_empty in Hp.
    - destruct (completed t) eqn:Hc; simpl.
      { split; [done | by intros (? & ? & _ & _ & _ & ?)]. }
      destruct (strptime (c :: d)) as [due|] eqn:Hp.
      + rewrite date_ltb_spec. split.
        * intros Hlt. by exists (c :: d), due.
        * intros (d' & due' & [= <-] & Hp' & Hlt & _). congruence.
      + split; [done|]. intros (d' & due' & [= <-] & Hp' & _). congruence.
    - split; [done | by intros (? & ? & ? & _)]. }
  split; [exact Hiff|].
  split_and!.
  - intros Hd. apply not_true_is_false. intros E.
    apply Hiff in E as (d & due & Hd' & _). congruence.
  - intros d Hd Hp. apply not_true_is_false. intros E.
    apply Hiff in E as (d' & due & Hd' & Hp' & _). congruence.
  - intros d due Hd Hp Hn. apply not_true_is_false. intros E.
    apply Hiff in E as (d' & due' & Hd' & Hp' & Hlt & _).
    exfalso. apply Hn. congruence.
  - intros Hc. apply not_true_is_false. intros E.
    apply Hiff in E as (d & due & _ & _ & _ & Hc'). congruence.
Qed.

Lemma apply_completion_run (t : Task) (flag : bool) (w : World) :
  apply_completion t flag w
  = (Returned (touched t flag (now_at (clock_reads w))), tick w).
Proof. done. Qed.

Lemma mark_completed_run (t : Task) (w : World) :
  mark_completed t w
  = (Returned (touched t true (now_at (clock_reads w))), tick w).
Proof. done. Qed.

Lemma mark_active_run (t : Task) (w : World) :
  mark_active t w
  = (Returned (touched t false (now_at (clock_reads w))), tick w).
Proof. done. Qed.

Lemma le_lt_or_eq (a b : pystr) : le a b -> (lt a b <-> a <> b).
Proof.
  unfold le, lt. intros Hba. split.
  - intros Hab ->. by rewrite ltb_irrefl in Hab.
  - intros Hne. destruct (ltb a b) eqn:Hab; [done|].
    exfalso. apply Hne. by apply ltb_antisym.
Qed.

(** C9, as the code has it: setting the completion flag stores the flag and
    a fresh reading of the clock in [updated_at], whatever the flag was
    before; so do [mark_completed], [mark_active] and [toggle_completed],
    each on every task.
    Setting it to true and then to false leaves the task not completed,
    stamped with the second reading.  Stamps are texts with a resolution of
    one second: when the second reading is not before the task's previous
    stamp, the new stamp is not smaller than the previous one, and it is
    strictly greater exactly when the two differ, that is, when the second
    reading falls in a later second. *)
Theorem set_completed_refreshes (t : Task) (w : World) :
  (forall flag,
     apply_completion t flag w
     = (Returned (touched t flag (now_at (clock_reads w))), tick w))
  /\ mark_completed t w
     = (Returned (touched t true (now_at (clock_reads w))), tick w)
  /\ mark_active t w
     = (Returned (touched t false (now_at (clock_reads w))), tick w)
  /\ toggle_completed t w
     = (Returned (touched t (negb (completed t)) (now_at (clock_reads w))),
        tick w)
  /\ (apply_completion t (completed t) w
      = (Returned (touched t (completed t) (now_at (clock_reads w))), tick w))
  /\ (exists t2,
        (t1 <~ apply_completion t true ;; apply_completion t1 false) w
        = (Returned t2, tick (tick w))
        /\ (t1 <~ mark_completed t ;; mark_active t1) w
           = (Returned t2, tick (tick w))
        /\ completed t2 = false
        /\ updated_at t2 = now_at (S (clock_reads w))
        /\ (le (updated_at t) (now_at (S (clock_reads w))) ->
            le (updated_at t) (updated_at t2)
            /\ (lt (updated_at t) (updated_at t2)
                <-> updated_at t <> now_at (S (clock_reads w))))).
Proof.
  split_and!; [done | done | done | done | done |].
  exists (touched t false (now_at (S (clock_reads w)))).
  split_and!; try done.
  simpl. intros Hle. split; [done|]. by apply le_lt_or_eq.
Qed.

End EntityClaims.


(** ** Records *)

Section RecordClaims.
Context `{Runtime}.

Lemma dict_get_without (missing : list pystr) (d : list (pystr * pyval))
    (key : pystr) (default : pyval) :
  dict_get (without missing d) key default
  = if bool_decide (key ∈ missing) then default else dict_get d key default.
Proof.
  induction d as [|[k v] d IH]; simpl.
  - by destruct (bool_decide (key ∈ missing)).
  - destruct (decide (k ∈ missing)) as [Hk|Hk].
    + rewrite (bool_decide_eq_true_2 _ Hk). simpl. rewrite IH.
      destruct (decide (key ∈ missing)) as [Hkey|Hkey].
      * by rewrite !(bool_decide_eq_true_2 _ Hkey).
      * rewrite (bool_decide_eq_false_2 _ Hkey).
        rewrite bool_decide_eq_false_2; [done|]. by intros ->.
    + rewrite (bool_decide_eq_false_2 _ Hk). simpl.
      destruct (decide (k = key)) as [->|Hne].
      * rewrite (bool_decide_eq_true_2 _ eq_refl).
        by rewrite (bool_decide_eq_false_2 _ Hk).
      * by rewrite (bool_decide_eq_false_2 _ Hne), IH.
Qed.

Lemma never_raises_bind {A B} (m : M A) (k : A -> M B) :
  never_raises m -> (forall a, never_raises (k a)) -> never_raises (bind m k).
Proof.
  intros Hm Hk w e. unfold bind. specialize (Hm w).
  destruct (m w) as [[a|e'|] w1]; simpl in *; [apply Hk | | done].
  by specialize (Hm e').
Qed.

Lemma from_dict_never_raises (d : list (pystr * pyval)) :
  never_raises (from_dict (PDict d)).
Proof.
  unfold from_dict.
  repeat (apply never_raises_bind; [|intros ?]);
    try (by intros w e);
    by match goal with |- never_raises (_ ?v) => destruct v end.
Qed.

Lemma to_dict_get (t : Task) :
  (forall d, dict_get (to_dict t) (str "title") d = PStr (title t))
  /\ (forall d, dict_get (to_dict t) (str "description") d
                = PStr (description t))
  /\ (forall d, dict_get (to_dict t) (str "due_date") d
                = val_opt_str (due_date t))
  /\ (forall d, dict_get (to_dict t) (str "completed") d
                = PBool (completed t))
  /\ (forall d, dict_get (to_dict t) (str "id") d = PStr (id t))
  /\ (forall d, dict_get (to_dict t) (str "created_at") d
                = PStr (created_at t))
  /\ (forall d, dict_get (to_dict t) (str "updated_at") d
                = PStr (updated_at t)).
Proof. by split_and!. Qed.

Lemma field_str_if (b : bool) (x y : pystr) :
  field_str (if b then PStr x else PStr y) = ret (if b then x else y).
Proof. by destruct b. Qed.

Lemma field_bool_if (b x y : bool) :
  field_bool (if b then PBool x else PBool y) = ret (if b then x else y).
Proof. by destruct b. Qed.

Lemma field_opt_str_if (b : bool) (o : option pystr) :
  field_opt_str (if b then PNone else val_opt_str o)
  = ret (if b then None else o).
Proof. by destruct b, o. Qed.

(** C6: reading back the record written for a task reproduces the task,
    field by field; and a record from which any of the seven keys are missing
    is still read without error, each missing field taking its default: the
    empty text for [title] and [description], no due date, [False] for
    [completed], a freshly drawn UUID for [id], and a reading of the clock for
    each of [created_at] and [updated_at].  No dictionary at all makes
    [from_dict] raise. *)
Theorem from_dict_round_trip (t : Task) (w : World) :
  from_dict (PDict (to_dict t)) w = (Returned t, after_reading 1 w)
  /\ (forall d, never_raises (from_dict (PDict d)))
  /\ forall missing : list pystr,
       from_dict (PDict (without missing (to_dict t))) w
       = (Returned
            (mkTask
               (or_default missing "title" [] (title t))
               (or_default missing "description" [] (description t))
               (or_default missing "due_date" None (due_date t))
               (or_default missing "completed" false (completed t))
               (or_default missing "id" (uuid_at (uuid_draws w)) (id t))
               (or_default missing "created_at"
                  (now_at (clock_reads w)) (created_at t))
               (or_default missing "updated_at"
                  (now_at (S (clock_reads w))) (updated_at t))),
          after_reading 1 w).
Proof.
  split; [apply from_dict_to_dict|].
  split; [apply from_dict_never_raises|].
  intros missing.
  destruct (to_dict_get t) as (Ht & Hd & Hdu & Hc & Hi & Hca & Hua).
  unfold from_dict, get_method, or_default.
  unfold bind at 1. unfold ret at 1.
  rewrite dict_get_without, Ht, field_str_if. unfold bind at 1, ret at 1.
  rewrite dict_get_without, Hd, field_str_if. unfold bind at 1, ret at 1.
  rewrite dict_get_without, Hdu, field_opt_str_if. unfold bind at 1, ret at 1.
  rewrite dict_get_without, Hc, field_bool_if. unfold bind at 1, ret at 1.
  unfold bind at 1, uuid4_hex at 1.
  rewrite dict_get_without, Hi, field_str_if. unfold bind at 1, ret at 1.
  unfold bind at 1, _now at 1. cbn [clock_reads uuid_draws disk device writes].
  rewrite dict_get_without, Hca, field_str_if. unfold bind at 1, ret at 1.
  unfold bind at 1, _now at 1. cbn [clock_reads uuid_draws disk device writes].
  rewrite dict_get_without, Hua, field_str_if. unfold bind at 1, ret at 1.
  reflexivity.
Qed.

End RecordClaims.


(** ** The list view *)

Section ViewClaims.
Context `{Runtime}.

Lemma filter_twice {A} (p q : A -> bool) (l : list A) :
  List.filter q (List.filter p l) = List.filter (fun x => p x && q x) l.
Proof.
  induction l as [|x l IH]; [done|]. simpl.
  destruct (p x); simpl; [|done]. destruct (q x); by rewrite IH.
Qed.

Lemma filter_all {A} (l : list A) : List.filter (fun _ => true) l = l.
Proof. induction l as [|x l IH]; [done|]. simpl. by rewrite IH. Qed.

(** The visible list is the sorted list of the tasks that pass both tests. *)
Lemma index_view_tasks (tasks : list Task) (search status : pystr)
    (edit_id : option pystr) :
  view_tasks (index_view tasks search status edit_id)
  = sorted sort_key (List.filter (keeps search status) tasks).
Proof.
  unfold index_view, keeps. simpl. f_equal.
  destruct (nonempty search);
    destruct (bool_decide (status = str "active"));
    destruct (bool_decide (status = str "completed"));
    rewrite ?filter_twice; simpl; rewrite ?filter_all; try reflexivity;
    apply List.filter_ext; intros t; by rewrite andb_true_r.
Qed.

Lemma keeps_visible (search status : pystr) (t : Task) :
  keeps search status t = true <-> visible search status t.
Proof.
  unfold keeps, visible, matches_search, status_keeps.
  rewrite andb_true_iff.
  assert ((if nonempty search
           then contains (str_lower search) (str_lower (title t))
                || contains (str_lower search) (str_lower (description t))
           else true) = true
          <-> (search <> [] ->
               occurs_in (str_lower search) (str_lower (title t))
               \/ occurs_in (str_lower search) (str_lower (description t))))
    as ->.
  { unfold occurs_in. destruct search as [|c s]; simpl; [done|].
    rewrite orb_true_iff, !contains_spec. split; [by intros ? _ | auto]. }
  assert ((if bool_decide (status = str "active") then negb (completed t)
           else if bool_decide (status = str "completed") then completed t
           else true) = true
          <-> (status = str "active" -> completed t = false)
              /\ (status = str "completed" -> completed t = true)) as ->;
    [|done].
  destruct (decide (status = str "active")) as [->|Ha].
  - rewrite bool_decide_eq_true_2 by done. rewrite negb_true_iff.
    split; [by intros ? | by intros [? _]; auto].
  - rewrite bool_decide_eq_false_2 by done.
    destruct (decide (status = str "completed")) as [->|Hc].
    + rewrite bool_decide_eq_true_2 by done.
      split; [by intros ? | by intros [_ ?]; auto].
    + rewrite bool_decide_eq_false_2 by done. by split.
Qed.

Lemma sort_key_components (t : Task) :
  sort_key t = (completed t, effective_due_date t, updated_at t).
Proof.
  unfold sort_key, effective_due_date.
  by destruct (due_date t) as [[|c d]|].
Qed.

(** [index] loads the collection and shows [index_view] of it, for the
    trimmed [q], the [status] (or [all]) and the [edit] parameter of the
    query string. *)
Lemma index_run (req : Request) (w w1 : World) (tasks : list Task) :
  load_tasks w = (Returned tasks, w1) ->
  index req w
  = (Returned
       (index_view tasks
          (strip (default [] (args req !! "q")))
          (default (str "all") (args req !! "status"))
          (args req !! "edit")),
     w1).
Proof. intros Hl. unfold index. by erewrite bind_returned by exact Hl. Qed.

(** C1: the list view shows exactly the tasks that contain the search text
    (when there is one) in title or description, letter case ignored, and
    that pass the status filter; it shows them in ascending order of the key
    (completed, due date or the far-future date, updated_at), tasks with the
    same key in the order they have in the input.  No other arrangement of
    those tasks is both ascending and stable.  [index] shows this view of the
    loaded collection, with the trimmed [q] as search text. *)
Theorem index_view_projection (tasks : list Task) (search status : pystr)
    (edit_id : option pystr) :
  let shown := view_tasks (index_view tasks search status edit_id) in
  (forall t, t ∈ shown <-> t ∈ tasks /\ visible search status t)
  /\ shown ≡ₚ List.filter (keeps search status) tasks
  /\ (forall t, keeps search status t = true <-> visible search status t)
  /\ StronglySorted (fun a b => key_le (sort_key a) (sort_key b)) shown
  /\ (forall k,
        List.filter (fun t => bool_decide (sort_key t = k)) shown
        = List.filter (fun t => bool_decide (sort_key t = k))
            (List.filter (keeps search status) tasks))
  /\ (forall t,
        sort_key t = (completed t, effective_due_date t, updated_at t))
  /\ (forall t, due_date t = None -> effective_due_date t = str "9999-12-31")
  /\ (forall t d, due_date t = Some d -> d <> [] -> effective_due_date t = d)
  /\ (forall a b, key_le a b <-> ~ key_lt b a)
  /\ (forall other,
        StronglySorted (fun a b => key_le (sort_key a) (sort_key b)) other ->
        (forall k,
           List.filter (fun t => bool_decide (sort_key t = k)) other
           = List.filter (fun t => bool_decide (sort_key t = k))
               (List.filter (keeps search status) tasks)) ->
        other = shown)
  /\ (forall req w w1,
        load_tasks w = (Returned tasks, w1) ->
        strip (default [] (args req !! "q")) = search ->
        default (str "all") (args req !! "status") = status ->
        args req !! "edit" = edit_id ->
        index req w
        = (Returned (index_view tasks search status edit_id), w1)).
Proof.
  intros shown. subst shown. rewrite index_view_tasks.
  split_and!;
    [| | | | | | | | | |by intros req w w1 Hl <- <- <-; apply index_run].
  - intros t. rewrite (sorted_perm sort_key).
    rewrite list_elem_of_In, filter_In, <- list_elem_of_In.
    by rewrite keeps_visible.
  - apply sorted_perm.
  - intros t. apply keeps_visible.
  - apply sorted_ascending.
  - intros k. apply sorted_stable.
  - apply sort_key_components.
  - intros t Hd. unfold effective_due_date. by rewrite Hd.
  - intros t d Hd Hne. unfold effective_due_date. rewrite Hd. by destruct d.
  - intros a b. unfold key_le. rewrite <- key_ltb_spec.
    by destruct (key_ltb b a).
  - intros other Hs Hk. by apply sorted_unique.
Qed.

Lemma find_task_lookup (tasks : list Task) (task_id : pystr) :
  snd <$> find_task tasks task_id = lookup_by_id tasks task_id.
Proof.
  unfold find_task. induction tasks as [|t tasks IH]; [done|]. simpl.
  case_decide as Hid.
  - by rewrite bool_decide_eq_true_2.
  - rewrite bool_decide_eq_false_2 by done. rewrite <- IH.
    by destruct (list_find _ tasks) as [[i x]|].
Qed.

Lemma lookup_by_id_none (tasks : list Task) (task_id : pystr) :
  (forall t, t ∈ tasks -> id t <> task_id) ->
  lookup_by_id tasks task_id = None.
Proof.
  induction tasks as [|t tasks IH]; [done|]. intros Hall. simpl.
  rewrite bool_decide_eq_false_2 by (apply Hall; left).
  apply IH. intros t' Ht'. apply Hall. by right.
Qed.

(** [lookup_by_id] finds the task at the first position that holds the id. *)
Lemma lookup_by_id_spec (tasks : list Task) (task_id : pystr) (t : Task) :
  lookup_by_id tasks task_id = Some t
  <-> exists i,
        tasks !! i = Some t /\ id t = task_id
        /\ forall j t', tasks !! j = Some t' -> j < i -> id t' <> task_id.
Proof.
  rewrite <- find_task_lookup. unfold find_task. split.
  - destruct (list_find _ tasks) as [[i x]|] eqn:Hf; [|done].
    intros [= ->]. apply list_find_Some in Hf. by exists i.
  - intros (i & Hi & Hid & Hfirst).
    assert (list_find (fun task => id task = task_id) tasks = Some (i, t))
      as -> by (by apply list_find_Some).
    done.
Qed.

(** C8: the edit target is the first task of the whole list, before any
    filtering, whose id is the supplied [edit_id]; it is the same whatever the
    search text and the status filter are, so a task hidden by them is still
    found.  With no [edit_id] there is no target.  (An empty [edit_id] counts
    as none; it could only name a task whose id is empty.) *)
Theorem edit_target_unfiltered (tasks : list Task) (search status : pystr)
    (edit_id : option pystr) :
  let target := view_edit_task (index_view tasks search status edit_id) in
  (edit_id = None -> target = None)
  /\ (forall e, edit_id = Some e -> e <> [] -> target = lookup_by_id tasks e)
  /\ (forall e t,
        lookup_by_id tasks e = Some t
        <-> exists i,
              tasks !! i = Some t /\ id t = e
              /\ forall j t', tasks !! j = Some t' -> j < i -> id t' <> e)
  /\ (forall e, edit_id = Some e -> (forall t, t ∈ tasks -> id t <> []) ->
        target = lookup_by_id tasks e)
  /\ (edit_id = Some [] -> target = None)
  /\ (forall search' status',
        view_edit_task (index_view tasks search' status' edit_id) = target).
Proof.
  intros target. subst target. unfold index_view. simpl.
  split_and!.
  - by intros ->.
  - intros e -> He. destruct e as [|c e]; [done|]. simpl.
    apply find_task_lookup.
  - intros e t. apply lookup_by_id_spec.
  - intros e -> Hids. destruct e as [|c e]; simpl.
    + symmetry. by apply lookup_by_id_none.
    + apply find_task_lookup.
  - by intros ->.
  - done.
Qed.

End ViewClaims.


(** ** The handlers *)

Section HandlerFacts.
Context `{Runtime}.

Lemma validate_due_date_run (raw : pystr) (w : World) :
  validate_due_date raw w
  = if nonempty (strip raw) then
      match strptime (strip raw) with
      | Some _ => (Returned (Some (strip raw)), w)
      | None => (Raised ValueError, w)
      end
    else (Returned None, w).
Proof.
  unfold validate_due_date. destruct (nonempty (strip raw)); simpl; [|done].
  by destruct (strptime (strip raw)).
Qed.

(** The [try] around [validate_due_date] in [create_task] and
    [update_task]: [None] stands for the branch taken on [ValueError]. *)
Lemma checked_due_date_run (text : pystr) (w : World) :
  try_except (due_date <~ validate_due_date (strip text) ;; ret (Some due_date))
    [ValueError] (ret None) w
  = if nonempty (strip text) then
      match strptime (strip text) with
      | Some _ => (Returned (Some (Some (strip text))), w)
      | None => (Returned None, w)
      end
    else (Returned (Some None), w).
Proof.
  unfold try_except, bind. rewrite validate_due_date_run, strip_idem.
  destruct (nonempty (strip text)); [|done].
  by destruct (strptime (strip text)).
Qed.

(** The four ways a [write_text] can go: it returns; it is refused at open;
    the text cannot be encoded; the device fails after some bytes. *)
Lemma write_text_cases (data : pystr) (w : World) :
  let after d :=
    mkWorld d WriteOk (S (writes w)) (clock_reads w) (uuid_draws w) in
  (write_text data w = (Returned tt, written data w)
   /\ encodable data = true /\ device w <> FailAtOpen)
  \/ (write_text data w = (Raised OSError, after (disk w))
      /\ device w = FailAtOpen)
  \/ (write_text data w = (Raised UnicodeEncodeError, after (Text []))
      /\ encodable data = false /\ device w <> FailAtOpen)
  \/ (exists n,
        write_text data w = (Raised OSError, after (first_bytes n data))
        /\ device w = FailAfter n /\ encodable data = true
        /\ n < utf8_length data).
Proof.
  unfold write_text, written. destruct (device w) as [| |n] eqn:Hd.
  - destruct (encodable data); [left | right; right; left]; by split_and!.
  - right. left. done.
  - destruct (encodable data).
    + case_decide.
      * right. right. right. exists n. by split_and!.
      * left. by split_and!.
    + right; right; left. by split_and!.
Qed.

Lemma write_text_returned (data : pystr) (w w' : World) :
  write_text data w = (Returned tt, w') -> w' = written data w.
Proof.
  destruct (write_text_cases data w)
    as [(-> & _)|[(-> & _)|[(-> & _)|(n & -> & _)]]]; congruence.
Qed.

Lemma write_text_encodable (data : pystr) (w w' : World) :
  write_text data w = (Returned tt, w') -> encodable data = true.
Proof.
  destruct (write_text_cases data w)
    as [(_ & ? & _)|[(-> & _)|[(-> & _)|(n & -> & _)]]]; congruence.
Qed.

Lemma write_text_counts (data : pystr) (w : World) :
  writes (snd (write_text data w)) = S (writes w).
Proof.
  by destruct (write_text_cases data w)
    as [(-> & _)|[(-> & _)|[(-> & _)|(n & -> & _)]]].
Qed.

Lemma write_text_modelled (data : pystr) (w : World) :
  fst (write_text data w) <> Unmodelled.
Proof.
  by destruct (write_text_cases data w)
    as [(-> & _)|[(-> & _)|[(-> & _)|(n & -> & _)]]].
Qed.

Lemma save_run (tasks : list Task) (w : World) :
  device w = WriteOk ->
  encodable (json_dumps (payload tasks)) = true ->
  save_tasks tasks w = (Returned tt, written (json_dumps (payload tasks)) w).
Proof.
  intros Hd He. unfold save_tasks, save, write_text.
  fold (payload tasks). by rewrite Hd, He.
Qed.


Lemma save_answer_returned (tasks : list Task) (req : Request)
    (msg : message) (cat : category) (extra : gmap string pystr)
    (w w' : World) (resp : Response) :
  (_ <~ save_tasks tasks ;; answer req msg cat extra) w = (Returned resp, w') ->
  flashed resp = (msg, cat)
  /\ w' = written (json_dumps (payload tasks)) w
  /\ encodable (json_dumps (payload tasks)) = true.
Proof.
  unfold bind, save_tasks, save, answer, ret. fold (payload tasks).
  destruct (write_text _ w) as [[[]|e|] w2] eqn:Hw; try done.
  intros [= <- <-]. split; [done|]. split.
  - by apply write_text_returned in Hw.
  - by apply write_text_encodable in Hw.
Qed.

Lemma new_Task_run (ti de : pystr) (du : option pystr) (w : World) :
  new_Task ti de du w
  = (Returned (mkTask ti de du false (uuid_at (uuid_draws w))
                 (now_at (clock_reads w)) (now_at (S (clock_reads w)))),
     mkWorld (disk w) (device w) (writes w)
       (S (S (clock_reads w))) (S (uuid_draws w))).
Proof. done. Qed.

Lemma find_task_none (tasks : list Task) (task_id : pystr) :
  find_task tasks task_id = None <-> lookup_by_id tasks task_id = None.
Proof.
  rewrite <- find_task_lookup. by destruct (find_task tasks task_id).
Qed.

End HandlerFacts.


Section Rejections.
Context `{Runtime}.

(** What is known of the world right after [load_tasks] returned. *)
Lemma load_tasks_store (w w1 : World) (r : outcome (list Task)) :
  load_tasks w = (r, w1) -> same_store w w1.
Proof.
  intros Hl. pose proof (reads_only_load w) as Hs.
  unfold load_tasks in Hl. by rewrite Hl in Hs.
Qed.

Lemma reaches_save_intro (tasks' : list Task) (req : Request)
    (msg : message) (extra : gmap string pystr) (w w2 : World) :
  same_store w w2 ->
  reaches_save tasks' w
    ((_ <~ save_tasks tasks' ;; answer req msg success extra) w2).
Proof. intros Hs. unfold reaches_save, answer. eauto 10. Qed.



(** On a device that works, a save of a text that can be encoded returns. *)
Lemma reaches_save_answers (tasks' : list Task) (w : World)
    (r : outcome Response * World) :
  reaches_save tasks' w r -> device w = WriteOk ->
  encodable (json_dumps (payload tasks')) = true ->
  exists resp, fst r = Returned resp.
Proof.
  intros (w2 & msg & params & (_ & Hdev & _) & ->) Hd He.
  erewrite bind_returned by (apply save_run; [congruence | done]).
  unfold ret. simpl. eauto.
Qed.


Lemma same_store_after_reading (n : nat) (w w1 : World) :
  same_store w w1 -> same_store w (after_reading n w1).
Proof. by intros (? & ? & ?). Qed.

Lemma create_task_run (req : Request) (w w1 : World) (tasks : list Task) :
  load_tasks w = (Returned tasks, w1) ->
  create_task req w
  = if nonempty (title_text req) then
      if nonempty (due_text req)
         && negb (bool_decide (is_Some (strptime (due_text req))))
      then answer req MsgDueDateFormat error ∅ w1
      else
        (task <~ new_Task (title_text req) (description_text req)
                   (stored_due (due_text req)) ;;
         _ <~ save_tasks (tasks ++ [task]) ;;
         answer req MsgCreated success ∅) w1
    else answer req MsgTitleEmpty error ∅ w1.
Proof.
  intros Hl. unfold create_task. erewrite bind_returned by exact Hl.
  fold (title_text req) (description_text req).
  destruct (nonempty (title_text req)); simpl; [|done].
  unfold bind at 1. rewrite checked_due_date_run.
  fold (due_text req). unfold stored_due.
  destruct (nonempty (due_text req)); simpl; [|done].
  destruct (strptime (due_text req)); simpl; done.
Qed.

Lemma update_task_run (task_id : pystr) (req : Request) (w w1 : World)
    (tasks : list Task) (pos : nat) (task : Task) :
  load_tasks w = (Returned tasks, w1) ->
  find_task tasks task_id = Some (pos, task) ->
  update_task task_id req w
  = if nonempty (title_text req) then
      if nonempty (due_text req)
         && negb (bool_decide (is_Some (strptime (due_text req))))
      then answer req MsgDueDateFormat error {["edit" := task_id]} w1
      else
        (task' <~ apply_completion
                    (mkTask (title_text req) (description_text req)
                       (stored_due (due_text req)) (completed task)
                       (id task) (created_at task) (updated_at task))
                    (bool_decide (form req !! "completed" = Some (str "1"))) ;;
         _ <~ save_tasks (<[pos := task']> tasks) ;;
         answer req MsgUpdated success ∅) w1
    else answer req MsgTitleEmpty error {["edit" := task_id]} w1.
Proof.
  intros Hl Hf. unfold update_task. erewrite bind_returned by exact Hl.
  rewrite Hf. fold (title_text req) (description_text req).
  destruct (nonempty (title_text req)); simpl; [|done].
  unfold bind at 1. rewrite checked_due_date_run.
  fold (due_text req). unfold stored_due.
  destruct (nonempty (due_text req)); simpl; [|done].
  destruct (strptime (due_text req)); simpl; done.
Qed.

(** A handler that answered with an error did not write. *)
Lemma create_task_error_no_write (req : Request) (w w' : World)
    (resp : Response) :
  create_task req w = (Returned resp, w') -> snd (flashed resp) = error ->
  same_store w w'.
Proof.
  destruct (load_tasks w) as [[tasks|e|] w1] eqn:Hl.
  - rewrite (create_task_run _ _ _ _ Hl).
    pose proof (load_tasks_store _ _ _ Hl) as Hs.
    destruct (nonempty (title_text req)).
    + destruct (_ && _).
      * by intros [= <- <-].
      * unfold bind at 1. rewrite new_Task_run.
        intros Hrun Herr. apply save_answer_returned in Hrun as (Hflash & _).
        rewrite Hflash in Herr. done.
    + by intros [= <- <-].
  - unfold create_task, bind. fold load_tasks. by rewrite Hl.
  - unfold create_task, bind. fold load_tasks. by rewrite Hl.
Qed.

Lemma update_status_error_no_write (task_id : pystr) (req : Request)
    (w w' : World) (resp : Response) :
  update_status task_id req w = (Returned resp, w') ->
  snd (flashed resp) = error -> same_store w w'.
Proof.
  unfold update_status, bind at 1.
  destruct (load_tasks w) as [[tasks|e|] w1] eqn:Hl; [|done|done].
  pose proof (load_tasks_store _ _ _ Hl) as Hs.
  destruct (find_task tasks task_id) as [[pos task]|].
  - destruct (negb _).
    + by intros [= <- <-].
    + unfold bind at 1. rewrite apply_completion_run.
      intros Hrun Herr. apply save_answer_returned in Hrun as (Hflash & _).
      rewrite Hflash in Herr. done.
  - by intros [= <- <-].
Qed.

Lemma update_task_error_no_write (task_id : pystr) (req : Request)
    (w w' : World) (resp : Response) :
  update_task task_id req w = (Returned resp, w') ->
  snd (flashed resp) = error -> same_store w w'.
Proof.
  destruct (load_tasks w) as [[tasks|e|] w1] eqn:Hl.
  - pose proof (load_tasks_store _ _ _ Hl) as Hs.
    destruct (find_task tasks task_id) as [[pos task]|] eqn:Hf.
    + rewrite (update_task_run _ _ _ _ _ _ _ Hl Hf).
      destruct (nonempty (title_text req)).
      * destruct (_ && _).
        -- by intros [= <- <-].
        -- unfold bind at 1. rewrite apply_completion_run.
           intros Hrun Herr. apply save_answer_returned in Hrun as (Hflash & _).
           rewrite Hflash in Herr. done.
      * by intros [= <- <-].
    + unfold update_task. erewrite bind_returned by exact Hl. rewrite Hf.
      by intros [= <- <-].
  - unfold update_task, bind. by rewrite Hl.
  - unfold update_task, bind. by rewrite Hl.
Qed.

Lemma delete_task_error_no_write (task_id : pystr) (req : Request)
    (w w' : World) (resp : Response) :
  delete_task task_id req w = (Returned resp, w') ->
  snd (flashed resp) = error -> same_store w w'.
Proof.
  unfold delete_task, bind at 1.
  destruct (load_tasks w) as [[tasks|e|] w1] eqn:Hl; [|done|done].
  pose proof (load_tasks_store _ _ _ Hl) as Hs.
  destruct (bool_decide _).
  - by intros [= <- <-].
  - intros Hrun Herr. apply save_answer_returned in Hrun as (Hflash & _).
    rewrite Hflash in Herr. done.
Qed.

End Rejections.


Section RejectionClaims.
Context `{Runtime}.

Lemma due_text_bad (text : pystr) :
  ~ due_text_ok text ->
  nonempty text && negb (bool_decide (is_Some (strptime text))) = true.
Proof.
  unfold due_text_ok. intros Hbad. destruct text as [|c s].
  - exfalso. apply Hbad. by left.
  - simpl. destruct (strptime (c :: s)) as [d|] eqn:Hp; [|done].
    exfalso. apply Hbad. right. by exists d.
Qed.

Lemma due_text_good (text : pystr) :
  due_text_ok text ->
  nonempty text && negb (bool_decide (is_Some (strptime text))) = false.
Proof.
  intros [->|[d Hd]]; [done|]. rewrite Hd. simpl. apply andb_false_r.
Qed.

Lemma filter_absent_id (tasks : list Task) (task_id : pystr) :
  lookup_by_id tasks task_id = None ->
  List.filter (fun task => negb (bool_decide (id task = task_id))) tasks
  = tasks.
Proof.
  induction tasks as [|t tasks IH]; [done|]. simpl.
  case_bool_decide; [done|]. simpl. intros Hl. by rewrite IH.
Qed.

Lemma create_task_rejects (req : Request) (w w1 : World) (tasks : list Task) :
  load_tasks w = (Returned tasks, w1) ->
  title_text req = [] \/ ~ due_text_ok (due_text req) ->
  rejected w (create_task req w).
Proof.
  intros Hl Hbad. rewrite (create_task_run _ _ _ _ Hl).
  pose proof (load_tasks_store _ _ _ Hl) as Hs. unfold rejected, answer, ret.
  destruct (nonempty (title_text req)) eqn:Ht.
  - destruct Hbad as [Hbad|Hbad]; [by rewrite Hbad in Ht|].
    rewrite (due_text_bad _ Hbad). eauto.
  - eauto.
Qed.

Lemma update_status_rejects (task_id : pystr) (req : Request) (w w1 : World)
    (tasks : list Task) :
  load_tasks w = (Returned tasks, w1) ->
  lookup_by_id tasks task_id = None \/ ~ state_known req ->
  rejected w (update_status task_id req w).
Proof.
  intros Hl Hbad. unfold update_status. erewrite bind_returned by exact Hl.
  pose proof (load_tasks_store _ _ _ Hl) as Hs. unfold rejected, answer, ret.
  destruct (find_task tasks task_id) as [[pos task]|] eqn:Hf; [|eauto].
  destruct Hbad as [Hbad|Hbad].
  { apply find_task_none in Hbad. congruence. }
  rewrite bool_decide_eq_false_2; [simpl; eauto|].
  intros Hin. apply Hbad. unfold state_known.
  apply elem_of_cons in Hin as [?|Hin]; [by left|].
  apply elem_of_cons in Hin as [?|Hin]; [by right|].
  by apply elem_of_nil in Hin.
Qed.

Lemma update_task_rejects (task_id : pystr) (req : Request) (w w1 : World)
    (tasks : list Task) :
  load_tasks w = (Returned tasks, w1) ->
  lookup_by_id tasks task_id = None \/ title_text req = []
  \/ ~ due_text_ok (due_text req) ->
  rejected w (update_task task_id req w).
Proof.
  intros Hl Hbad.
  pose proof (load_tasks_store _ _ _ Hl) as Hs.
  destruct (find_task tasks task_id) as [[pos task]|] eqn:Hf.
  - rewrite (update_task_run _ _ _ _ _ _ _ Hl Hf). unfold rejected, answer, ret.
    destruct Hbad as [Hbad|Hbad].
    { apply find_task_none in Hbad. congruence. }
    destruct (nonempty (title_text req)) eqn:Ht; [|eauto].
    destruct Hbad as [Hbad|Hbad]; [by rewrite Hbad in Ht|].
    rewrite (due_text_bad _ Hbad). eauto.
  - unfold update_task. erewrite bind_returned by exact Hl. rewrite Hf.
    unfold rejected, answer, ret. eauto.
Qed.

Lemma delete_task_rejects (task_id : pystr) (req : Request) (w w1 : World)
    (tasks : list Task) :
  load_tasks w = (Returned tasks, w1) ->
  lookup_by_id tasks task_id = None ->
  rejected w (delete_task task_id req w).
Proof.
  intros Hl Hbad. unfold delete_task. erewrite bind_returned by exact Hl.
  pose proof (load_tasks_store _ _ _ Hl) as Hs.
  rewrite (filter_absent_id _ _ Hbad).
  rewrite bool_decide_eq_true_2 by done. unfold rejected, answer, ret. eauto.
Qed.

(** An update that passes its checks replaces title, description, due date
    and completion flag of the task found, stamps it, and saves. *)
Lemma update_task_passes (task_id : pystr) (req : Request) (w w1 : World)
    (tasks : list Task) (pos : nat) (task : Task) :
  load_tasks w = (Returned tasks, w1) ->
  find_task tasks task_id = Some (pos, task) ->
  title_text req <> [] -> due_text_ok (due_text req) ->
  update_task task_id req w
  = (_ <~ save_tasks (<[pos := updated req w1 task]> tasks) ;;
     answer req MsgUpdated success ∅) (tick w1).
Proof.
  intros Hl Hf Ht Hdue.
  rewrite (update_task_run _ _ _ _ _ _ _ Hl Hf).
  apply nonempty_true in Ht. rewrite Ht, (due_text_good _ Hdue).
  unfold bind at 1. by rewrite apply_completion_run.
Qed.

(** C5: a command that is rejected leaves the persisted collection as it
    was: no write happens.  This holds for every answer that flashes an
    error, and every listed condition leads to such an answer: an empty or
    blank title or a malformed due date for create and update, an unknown
    task id for set-status, update and delete, an unknown state for
    set-status.  All checks come before the first assignment: an update of a
    known task with a title that is not blank and a due date that is blank or
    parses is never answered with an error, and when it answers, the file
    holds the collection with all four fields of the task replaced. *)
Theorem rejected_command_leaves_store (task_id : pystr) (req : Request)
    (w : World) :
  (forall resp w', snd (flashed resp) = error ->
     (create_task req w = (Returned resp, w') -> same_store w w')
     /\ (update_status task_id req w = (Returned resp, w') -> same_store w w')
     /\ (update_task task_id req w = (Returned resp, w') -> same_store w w')
     /\ (delete_task task_id req w = (Returned resp, w') -> same_store w w'))
  /\ (forall tasks w1, load_tasks w = (Returned tasks, w1) ->
        (title_text req = [] \/ ~ due_text_ok (due_text req) ->
           rejected w (create_task req w))
        /\ (lookup_by_id tasks task_id = None \/ ~ state_known req ->
              rejected w (update_status task_id req w))
        /\ (lookup_by_id tasks task_id = None \/ title_text req = []
            \/ ~ due_text_ok (due_text req) ->
              rejected w (update_task task_id req w))
        /\ (lookup_by_id tasks task_id = None ->
              rejected w (delete_task task_id req w))
        /\ (forall pos task resp w',
              find_task tasks task_id = Some (pos, task) ->
              title_text req <> [] -> due_text_ok (due_text req) ->
              update_task task_id req w = (Returned resp, w') ->
              flashed resp = (MsgUpdated, success)
              /\ disk w'
                 = Text (json_dumps
                           (payload (<[pos := updated req w1 task]> tasks))))).
Proof.
  split.
  - intros resp w' Herr. split_and!; intros Hrun.
    + by eapply create_task_error_no_write.
    + by eapply update_status_error_no_write.
    + by eapply update_task_error_no_write.
    + by eapply delete_task_error_no_write.
  - intros tasks w1 Hl. split_and!.
    + by eapply create_task_rejects.
    + by eapply update_status_rejects.
    + by eapply update_task_rejects.
    + by eapply delete_task_rejects.
    + intros pos task resp w' Hf Ht Hdue.
      rewrite (update_task_passes _ _ _ _ _ _ _ Hl Hf Ht Hdue).
      intros Hrun. apply save_answer_returned in Hrun as (Hflash & -> & _).
      done.
Qed.

End RejectionClaims.


Section StoreClaims.
Context `{Runtime}.

Lemma create_task_passes (req : Request) (w w1 : World) (tasks : list Task) :
  load_tasks w = (Returned tasks, w1) ->
  title_text req <> [] -> due_text_ok (due_text req) ->
  create_task req w
  = (_ <~ save_tasks (tasks ++ [created req w1]) ;;
     answer req MsgCreated success ∅) (after_reading 1 w1).
Proof.
  intros Hl Ht Hdue. rewrite (create_task_run _ _ _ _ Hl).
  apply nonempty_true in Ht. rewrite Ht, (due_text_good _ Hdue).
  unfold bind at 1. by rewrite new_Task_run.
Qed.


End StoreClaims.


Section PersistenceClaims.
Context `{Runtime}.

Lemma lookup_snoc_other {A} (l : list A) (x y : A) (i : nat) :
  (l ++ [x]) !! i = Some y -> i <> length l -> l !! i = Some y.
Proof.
  intros Hi Hne. destruct (decide (i < length l)) as [Hlt|Hge].
  - by rewrite lookup_app_l in Hi.
  - apply lookup_lt_Some in Hi. rewrite length_app in Hi. simpl in Hi. lia.
Qed.

Lemma fresh_id_iff (tasks : list Task) (t : Task) :
  (forall i u, (tasks ++ [t]) !! i = Some u -> i <> length tasks ->
     id u <> id t)
  <-> id t ∉ map id tasks.
Proof.
  change (map id tasks) with (id <$> tasks). rewrite list_elem_of_fmap. split.
  - intros Hfresh (u & Hid & Hu).
    apply list_elem_of_lookup in Hu as (i & Hi).
    pose proof (lookup_lt_Some _ _ _ Hi) as Hlt.
    apply (Hfresh i u); [by rewrite lookup_app_l | lia | done].
  - intros Hout i u Hi Hne Hid. apply Hout. exists u. split; [done|].
    apply list_elem_of_lookup. exists i. by eapply lookup_snoc_other.
Qed.

(** C4, as the code has it: for a form whose title is not blank and whose
    due-date text is blank or parses, [create_task] goes on to save the
    stored tasks followed by one new task, and when it answers, a [load] that
    follows yields exactly that collection.  The new task carries the title,
    the description and the due date of the form with surrounding whitespace
    removed (no due date for a blank text), is not completed, has the freshly
    drawn UUID as id (the draw that follows those made while loading), and
    has two consecutive readings of the clock as [created_at] and
    [updated_at].  Its id has 32 characters, so it is not empty; it differs
    from the id of every other task exactly when the drawn UUID is not
    already the id of a stored task, which the code does not check; the two
    stamps are equal exactly when the two readings are. *)
Theorem create_then_load (req : Request) (w w1 : World) (tasks : list Task) :
  load_tasks w = (Returned tasks, w1) ->
  title_text req <> [] ->
  due_text_ok (due_text req) ->
  codec_ok (tasks ++ [created req w1]) ->
  w1 = after_reading (length tasks) w
  /\ reaches_save (tasks ++ [created req w1]) w (create_task req w)
  /\ (forall resp w2, create_task req w = (Returned resp, w2) ->
        flashed resp = (MsgCreated, success)
        /\ exists w3, load w2 = (Returned (tasks ++ [created req w1]), w3))
  /\ title (created req w1) = title_text req
  /\ description (created req w1) = description_text req
  /\ due_date (created req w1) = stored_due (due_text req)
  /\ completed (created req w1) = false
  /\ id (created req w1) = uuid_at (length tasks + uuid_draws w)
  /\ length (id (created req w1)) = 32
  /\ id (created req w1) <> []
  /\ ((forall i t, (tasks ++ [created req w1]) !! i = Some t ->
                   i <> length tasks -> id t <> id (created req w1))
      <-> uuid_at (uuid_draws w1) ∉ map id tasks)
  /\ (created_at (created req w1) = updated_at (created req w1)
      <-> now_at (clock_reads w1) = now_at (S (clock_reads w1))).
Proof.
  intros Hl Ht Hdue [Hblank Hcodec].
  pose proof (load_world _ _ _ Hl) as Hw1.
  pose proof (load_tasks_store _ _ _ Hl) as Hstore.
  pose proof (uuid_at_length (uuid_draws w1)) as Hlen.
  split_and!; try done.
  - rewrite (create_task_passes _ _ _ _ Hl Ht Hdue).
    by apply reaches_save_intro, same_store_after_reading.
  - intros resp w2. rewrite (create_task_passes _ _ _ _ Hl Ht Hdue).
    intros Hrun. apply save_answer_returned in Hrun as (Hflash & -> & _).
    split; [done|]. eexists. by apply load_saved.
  - by rewrite Hw1.
  - simpl. intros Hnil. by rewrite Hnil in Hlen.
  - apply fresh_id_iff.
Qed.

(** A save that returned left the complete serialisation in the file. *)
Lemma save_returned (tasks : list Task) (w w' : World) :
  save tasks w = (Returned tt, w') ->
  w' = written (json_dumps (payload tasks)) w
  /\ encodable (json_dumps (payload tasks)) = true.
Proof.
  unfold save. fold (payload tasks). intros Hw. split.
  - by apply write_text_returned in Hw.
  - by apply write_text_encodable in Hw.
Qed.

(** What is in a file that received the first bytes of a text. *)
Lemma first_bytes_cases (n : nat) (s : pystr) :
  first_bytes n s = NotUtf8 \/ exists p, first_bytes n s = Text p.
Proof.
  revert n. induction s as [|c s IH]; intros n; cbn [first_bytes];
    [right; eauto|].
  destruct (n =? 0)%nat; [right; eauto|].
  destruct (utf8_width c <=? n)%nat; [|by left].
  destruct (IH (n - utf8_width c)) as [-> | (p & ->)]; [by left | right; eauto].
Qed.

Lemma first_bytes_proper (n : nat) (s p : pystr) :
  n < utf8_length s -> first_bytes n s = Text p -> proper_prefix p s.
Proof.
  unfold proper_prefix. revert n p.
  induction s as [|c s IH]; intros n p; cbn [first_bytes utf8_length];
    [lia|].
  intros Hn. destruct (n =? 0)%nat eqn:H0.
  { intros [= <-]. by exists (c :: s). }
  destruct (utf8_width c <=? n)%nat eqn:Hw; [|done].
  apply Nat.leb_le in Hw.
  destruct (first_bytes (n - utf8_width c) s) as [| | |p'] eqn:Hf; try done.
  intros [= <-].
  destruct (IH (n - utf8_width c) p') as (q & Hq & ->); [lia | done|].
  by exists q.
Qed.

Lemma first_bytes_exact (n : nat) (s p : pystr) :
  n < utf8_length s -> first_bytes n s = Text p -> utf8_length p = n.
Proof.
  revert n p.
  induction s as [|c s IH]; intros n p; cbn [first_bytes utf8_length];
    [lia|].
  intros Hn. destruct (n =? 0)%nat eqn:H0.
  { apply Nat.eqb_eq in H0. by intros [= <-]. }
  destruct (utf8_width c <=? n)%nat eqn:Hw; [|done].
  apply Nat.leb_le in Hw.
  destruct (first_bytes (n - utf8_width c) s) as [| | |p'] eqn:Hf; try done.
  intros [= <-]. cbn [utf8_length].
  rewrite (IH (n - utf8_width c) p'); [lia | lia | done].
Qed.

Lemma first_bytes_inside (n : nat) (s : pystr) :
  n < utf8_length s -> first_bytes n s = NotUtf8 ->
  exists p c q,
    s = p ++ c :: q /\ utf8_length p < n < utf8_length p + utf8_width c.
Proof.
  revert n.
  induction s as [|c s IH]; intros n; cbn [first_bytes utf8_length];
    [lia|].
  intros Hn. destruct (n =? 0)%nat eqn:H0; [done|].
  apply Nat.eqb_neq in H0.
  destruct (utf8_width c <=? n)%nat eqn:Hw.
  - apply Nat.leb_le in Hw.
    destruct (first_bytes (n - utf8_width c) s) as [| | |p'] eqn:Hf;
      try done.
    intros _. destruct (IH (n - utf8_width c)) as (p & c' & q & -> & Hcut);
      [lia | done|].
    exists (c :: p), c', q. split; [done|]. cbn [utf8_length]. lia.
  - apply Nat.leb_gt in Hw. intros _. exists [], c, s.
    split; [done|]. simpl. lia.
Qed.

(** A save that raised: the three ways it can have gone. *)
Lemma save_raised (tasks : list Task) (w w' : World) (e : exn) :
  save tasks w = (Raised e, w') ->
  (e = OSError /\ device w = FailAtOpen /\ disk w' = disk w)
  \/ (e = UnicodeEncodeError
      /\ encodable (json_dumps (payload tasks)) = false
      /\ disk w' = Text [])
  \/ (e = OSError /\ encodable (json_dumps (payload tasks)) = true
      /\ exists n, device w = FailAfter n
                   /\ n < utf8_length (json_dumps (payload tasks))
                   /\ disk w' = first_bytes n (json_dumps (payload tasks))).
Proof.
  unfold save. fold (payload tasks).
  destruct (write_text_cases (json_dumps (payload tasks)) w)
    as [(-> & _)|[(-> & Hd)|[(-> & He & _)|(n & -> & Hd & He & Hn)]]];
    [done| | |]; intros [= <- <-].
  - left. done.
  - right. left. done.
  - right. right. split_and!; try done. exists n. done.
Qed.

(** C2, as the code has it: [save] prints the whole collection and writes it
    over the backing file in place; there is no temporary file and no
    rename.  After a save that returned, the file holds the complete new
    serialisation and [load] yields the new collection.  A save that raised
    went one of three ways.  The open was refused: [OSError], and the file
    is untouched.  The serialisation holds a surrogate: [UnicodeEncodeError],
    the file has been emptied, and [load] yields the empty collection.  The
    device failed after [n] bytes: [OSError], and the file holds those
    first bytes of the new serialisation and nothing of the previous
    content; when the cut falls inside the bytes of one character the next
    [load] raises [UnicodeDecodeError], otherwise the file holds a proper
    prefix of the new text, [n] bytes long, on which [load] yields the
    empty collection when the prefix is blank or is refused with
    [JSONDecodeError], and raises when the decoder raises something else. *)
Theorem save_overwrites_in_place (tasks : list Task) (w : World) :
  let data := json_dumps (payload tasks) in
  (forall w', save tasks w = (Returned tt, w') ->
     disk w' = Text data /\ encodable data = true
     /\ (codec_ok tasks ->
         load w' = (Returned tasks, after_reading (length tasks) w')))
  /\ (forall e w', save tasks w = (Raised e, w') ->
        (e = OSError /\ device w = FailAtOpen /\ disk w' = disk w)
        \/ (e = UnicodeEncodeError /\ encodable data = false
            /\ disk w' = Text [] /\ load w' = (Returned [], w'))
        \/ (e = OSError /\ encodable data = true
            /\ exists n,
                 device w = FailAfter n /\ n < utf8_length data
                 /\ disk w' = first_bytes n data
                 /\ ((disk w' = NotUtf8
                      /\ (exists p c q,
                            data = p ++ c :: q
                            /\ utf8_length p < n
                                < utf8_length p + utf8_width c)
                      /\ load w' = (Raised UnicodeDecodeError, w'))
                     \/ exists p,
                          disk w' = Text p /\ proper_prefix p data
                          /\ utf8_length p = n
                          /\ (strip p = []
                              \/ (json_loads p = None
                                  /\ json_error p = JSONDecodeError) ->
                              load w' = (Returned [], w'))
                          /\ (strip p <> [] -> json_loads p = None ->
                              is_instance (json_error p) OSError = false ->
                              is_instance (json_error p) JSONDecodeError
                              = false ->
                              load w' = (Raised (json_error p), w')))))
  /\ (forall w', save tasks w <> (Unmodelled, w')).
Proof.
  intros data. subst data. split_and!.
  - intros w' Hs. apply save_returned in Hs as (-> & He).
    split; [done|]. split; [done|].
    intros [Hb Hc]. by apply load_saved.
  - intros e w' Hs.
    apply save_raised in Hs
      as [(-> & Hd & Hdisk)|[(-> & He & Hdisk)|(-> & He & n & Hd & Hn & Hdisk)]].
    + left. done.
    + right. left. split_and!; try done. by eapply load_blank.
    + right. right. split_and!; try done. exists n. split_and!; try done.
      destruct (first_bytes_cases n (json_dumps (payload tasks)))
        as [Hcut | (p & Hcut)]; rewrite Hcut in Hdisk.
      * left. split; [done|]. split; [by apply first_bytes_inside|].
        by apply load_not_utf8.
      * right. exists p.
        split_and!;
          [done | by eapply first_bytes_proper | by eapply first_bytes_exact
           | |].
        -- intros [Hb|(Hj & Hje)];
             [by eapply load_blank | by eapply load_undecodable].
        -- intros Hb Hj Ho Hde. by eapply load_decoder_raises.
  - intros w' Hs. unfold save in Hs. fold (payload tasks) in Hs.
    pose proof (write_text_modelled (json_dumps (payload tasks)) w) as Hm.
    by rewrite Hs in Hm.
Qed.

End PersistenceClaims.

(** * Further properties of the code *)

(** ** What a handler that answered with success has done *)

Section HandlerOutcomes.
Context `{Runtime}.

Lemma without_id_length (task_id : pystr) (tasks : list Task) :
  length (without_id task_id tasks) <= length tasks.
Proof.
  induction tasks as [|t tasks IH]; simpl; [lia|].
  destruct (negb _); simpl; lia.
Qed.

Lemma without_id_shorter (task_id : pystr) (tasks : list Task) :
  lookup_by_id tasks task_id <> None ->
  length (without_id task_id tasks) < length tasks.
Proof.
  induction tasks as [|t tasks IH]; simpl; [done|].
  destruct (decide (id t = task_id)) as [Hid|Hid].
  - rewrite !(bool_decide_eq_true_2 _ Hid). simpl. intros _.
    pose proof (without_id_length task_id tasks). unfold without_id in *. lia.
  - rewrite !(bool_decide_eq_false_2 _ Hid). simpl. intros Hl.
    apply IH in Hl. unfold without_id in *. lia.
Qed.

Lemma without_id_same_length (task_id : pystr) (tasks : list Task) :
  length (without_id task_id tasks) = length tasks <->
  lookup_by_id tasks task_id = None.
Proof.
  split.
  - intros Hlen. destruct (lookup_by_id tasks task_id) eqn:Hl; [|done].
    assert (lookup_by_id tasks task_id <> None) as Hne by congruence.
    apply without_id_shorter in Hne. lia.
  - intros Hl. unfold without_id. by rewrite filter_absent_id.
Qed.

Lemma state_known_elem (req : Request) :
  state_known req
  <-> form req !! "state" ∈ [Some (str "completed"); Some (str "active")].
Proof.
  unfold state_known. rewrite !elem_of_cons, elem_of_nil. tauto.
Qed.

Lemma create_task_success (req : Request) (w w1 w' : World)
    (tasks : list Task) (resp : Response) :
  load_tasks w = (Returned tasks, w1) ->
  create_task req w = (Returned resp, w') ->
  snd (flashed resp) = success ->
  title_text req <> [] /\ due_text_ok (due_text req)
  /\ w' = written (json_dumps (payload (tasks ++ [created req w1])))
            (after_reading 1 w1).
Proof.
  intros Hl. rewrite (create_task_run _ _ _ _ Hl).
  destruct (nonempty (title_text req)) eqn:Ht; [|by intros [= <- <-]].
  destruct (nonempty (due_text req)
            && negb (bool_decide (is_Some (strptime (due_text req)))))
    eqn:Hd; [by intros [= <- <-]|].
  unfold bind at 1. rewrite new_Task_run. unfold bind at 1.
  unfold save_tasks, save. fold (payload (tasks ++ [created req w1])).
  destruct (write_text _ _) as [[[]|e|] w2] eqn:Hw; try done.
  apply write_text_returned in Hw. intros [= <- <-] _.
  split; [by apply nonempty_true|]. split; [|done].
  unfold due_text_ok. destruct (due_text req) as [|c d]; [by left|].
  simpl in Hd. right. destruct (strptime (c :: d)) as [date|]; [eauto|done].
Qed.

Lemma update_status_success (task_id : pystr) (req : Request)
    (w w1 w' : World) (tasks : list Task) (resp : Response) :
  load_tasks w = (Returned tasks, w1) ->
  update_status task_id req w = (Returned resp, w') ->
  snd (flashed resp) = success ->
  exists pos task,
    find_task tasks task_id = Some (pos, task) /\ state_known req
    /\ w' = written
              (json_dumps
                 (payload
                    (<[pos := touched task
                                (bool_decide
                                   (form req !! "state"
                                    = Some (str "completed")))
                                (now_at (clock_reads w1))]> tasks)))
              (tick w1).
Proof.
  intros Hl. unfold update_status. erewrite bind_returned by exact Hl.
  destruct (find_task tasks task_id) as [[pos task]|] eqn:Hf;
    [|by intros [= <- <-]].
  destruct (decide (state_known req)) as [Hs|Hs].
  - pose proof Hs as Hin. apply state_known_elem in Hin.
    rewrite (bool_decide_eq_true_2 _ Hin).
    simpl. unfold bind at 1. rewrite apply_completion_run. unfold bind at 1.
    unfold save_tasks, save.
    destruct (write_text _ _) as [[[]|e|] w2] eqn:Hw; try done.
    apply write_text_returned in Hw. intros [= <- <-] _.
    exists pos, task. by split_and!.
  - assert (form req !! "state"
            ∉ [Some (str "completed"); Some (str "active")]) as Hin
      by (by rewrite <- state_known_elem).
    rewrite (bool_decide_eq_false_2 _ Hin). by intros [= <- <-].
Qed.

Lemma update_task_success (task_id : pystr) (req : Request)
    (w w1 w' : World) (tasks : list Task) (resp : Response) :
  load_tasks w = (Returned tasks, w1) ->
  update_task task_id req w = (Returned resp, w') ->
  snd (flashed resp) = success ->
  exists pos task,
    find_task tasks task_id = Some (pos, task)
    /\ title_text req <> [] /\ due_text_ok (due_text req)
    /\ w' = written
              (json_dumps (payload (<[pos := updated req w1 task]> tasks)))
              (tick w1).
Proof.
  intros Hl.
  destruct (find_task tasks task_id) as [[pos task]|] eqn:Hf.
  - rewrite (update_task_run _ _ _ _ _ _ _ Hl Hf).
    destruct (nonempty (title_text req)) eqn:Ht; [|by intros [= <- <-]].
    destruct (nonempty (due_text req)
              && negb (bool_decide (is_Some (strptime (due_text req)))))
      eqn:Hd; [by intros [= <- <-]|].
    unfold bind at 1. rewrite apply_completion_run. unfold bind at 1.
    unfold save_tasks, save.
    destruct (write_text _ _) as [[[]|e|] w2] eqn:Hw; try done.
    apply write_text_returned in Hw. intros [= <- <-] _.
    exists pos, task. split; [done|]. split; [by apply nonempty_true|].
    split; [|done].
    unfold due_text_ok. destruct (due_text req) as [|c d]; [by left|].
    simpl in Hd. right. destruct (strptime (c :: d)) as [date|]; [eauto|done].
  - unfold update_task. erewrite bind_returned by exact Hl. rewrite Hf.
    by intros [= <- <-].
Qed.

Lemma delete_task_success (task_id : pystr) (req : Request)
    (w w1 w' : World) (tasks : list Task) (resp : Response) :
  load_tasks w = (Returned tasks, w1) ->
  delete_task task_id req w = (Returned resp, w') ->
  snd (flashed resp) = success ->
  lookup_by_id tasks task_id <> None
  /\ w' = written (json_dumps (payload (without_id task_id tasks))) w1.
Proof.
  intros Hl. unfold delete_task. erewrite bind_returned by exact Hl.
  fold (without_id task_id tasks).
  destruct (decide (length (without_id task_id tasks) = length tasks))
    as [Hlen|Hlen].
  - rewrite bool_decide_eq_true_2 by done. by intros [= <- <-].
  - rewrite bool_decide_eq_false_2 by done.
    unfold bind at 1. unfold save_tasks, save.
    destruct (write_text _ _) as [[[]|e|] w2] eqn:Hw; try done.
    apply write_text_returned in Hw. intros [= <- <-] _.
    split; [|done]. by rewrite <- without_id_same_length.
Qed.

Lemma update_status_passes (task_id : pystr) (req : Request)
    (w w1 : World) (tasks : list Task) (pos : nat) (task : Task) :
  load_tasks w = (Returned tasks, w1) ->
  find_task tasks task_id = Some (pos, task) ->
  state_known req ->
  update_status task_id req w
  = (_ <~ save_tasks
            (<[pos := touched task
                        (bool_decide
                           (form req !! "state" = Some (str "completed")))
                        (now_at (clock_reads w1))]> tasks) ;;
     answer req MsgStatusUpdated success ∅) (tick w1).
Proof.
  intros Hl Hf Hs.
  unfold update_status. erewrite bind_returned by exact Hl. rewrite Hf.
  apply state_known_elem in Hs. rewrite (bool_decide_eq_true_2 _ Hs).
  simpl. unfold bind at 1. by rewrite apply_completion_run.
Qed.

Lemma delete_task_passes (task_id : pystr) (req : Request)
    (w w1 : World) (tasks : list Task) :
  load_tasks w = (Returned tasks, w1) ->
  lookup_by_id tasks task_id <> None ->
  delete_task task_id req w
  = (_ <~ save_tasks (without_id task_id tasks) ;;
     answer req MsgDeleted success ∅) w1.
Proof.
  intros Hl Hfound.
  unfold delete_task. erewrite bind_returned by exact Hl.
  fold (without_id task_id tasks).
  by rewrite bool_decide_eq_false_2
    by (pose proof (without_id_shorter _ _ Hfound); lia).
Qed.

End HandlerOutcomes.

(** ** The entity and its display *)

Section EntityExtras.
Context `{Runtime}.

(** X1: [toggle_completed] completes an open task and reopens a completed
    one, exactly as [mark_completed] and [mark_active] do; it changes the
    status label; and toggling twice gives back the task with its flag as it
    was, only [updated_at] carrying the second reading of the clock. *)
Theorem toggle_completed_flips (t : Task) (w : World) :
  toggle_completed t w
  = (if completed t then mark_active t w else mark_completed t w)
  /\ (forall t1 w1, toggle_completed t w = (Returned t1, w1) ->
        completed t1 = negb (completed t)
        /\ status_label t1 <> status_label t)
  /\ (t1 <~ toggle_completed t ;; toggle_completed t1) w
     = (Returned (touched t (completed t) (now_at (S (clock_reads w)))),
        tick (tick w)).
Proof.
  split_and!.
  - unfold toggle_completed, mark_active, mark_completed.
    by destruct (completed t).
  - intros t1 w1 [= <- <-]. simpl. split; [done|].
    unfold status_label. simpl. by destruct (completed t).
  - unfold toggle_completed, bind, ret, _now, touched, tick. simpl.
    by rewrite negb_involutive.
Qed.

Lemma date_before_trans (d1 d2 d3 : date) :
  date_before d1 d2 -> date_before d2 d3 -> date_before d1 d3.
Proof. unfold date_before. lia. Qed.

(** X10: whether a task is overdue depends on its due date and its
    completion flag only; a task that is overdue on one day is overdue on
    every later day; and completing it, by [mark_completed] or by
    [apply_completion], makes it not overdue whatever its due date. *)
Theorem overdue_until_completed (today : date) (t : Task) :
  (forall t', due_date t' = due_date t -> completed t' = completed t ->
     is_overdue today t' = is_overdue today t)
  /\ (forall later, is_overdue today t = true -> date_before today later ->
        is_overdue later t = true)
  /\ (forall w t' w', mark_completed t w = (Returned t', w')
                      \/ apply_completion t true w = (Returned t', w') ->
        is_overdue today t' = false)
  /\ (forall w flag t' w', apply_completion t flag w = (Returned t', w') ->
        flag = completed t -> is_overdue today t' = is_overdue today t).
Proof.
  split_and!.
  - intros t' Hd Hc. unfold is_overdue. by rewrite Hd, Hc.
  - intros later. unfold is_overdue.
    destruct (negb (truthy (due_date t)) || completed t); [done|].
    destruct (due_date t) as [d|]; [|done].
    destruct (strptime d) as [due|]; [|done].
    rewrite !date_ltb_spec. apply date_before_trans.
  - intros w t' w' [[= <- _]|[= <- _]]; unfold is_overdue; simpl;
      by rewrite orb_true_r.
  - intros w flag t' w' [= <- _] ->. done.
Qed.

End EntityExtras.

(** ** The redirect and the list view *)

Section ViewExtras.
Context `{Runtime}.

Lemma known_status_all_present (req : Request) :
  strip (default [] (form req !! "status")) = str "all" ->
  is_Some (form req !! "status").
Proof. destruct (form req !! "status"); [eauto | done]. Qed.

(** The parameters [redirect_to_index] builds before [extra] is merged in:
    the trimmed [q] when it is not empty, and the trimmed [status] when it is
    one of the three known values. *)
Lemma redirect_to_index_own (req : Request) (extra : gmap string pystr) :
  redirect_to_index req extra
  = extra
    ∪ (let q := strip (default [] (form req !! "q")) in
       let st := strip (default [] (form req !! "status")) in
       let params : gmap string pystr :=
         if nonempty q then {["q" := q]} else ∅ in
       if known_status st then <["status" := st]> params else params).
Proof.
  unfold redirect_to_index, known_status. simpl. f_equal.
  set (st := strip (default [] (form req !! "status"))).
  assert (bool_decide (st ∈ [str "all"; str "active"; str "completed"])
          && (negb (bool_decide (st = str "all"))
              || bool_decide (is_Some (form req !! "status")))
          = bool_decide (st ∈ [str "all"; str "active"; str "completed"]))
    as ->.
  { destruct (bool_decide (st ∈ _)); [|done]. simpl.
    destruct (decide (st = str "all")) as [Hall|Hall].
    - rewrite (bool_decide_eq_true_2 _ Hall). simpl.
      apply bool_decide_eq_true_2. by apply known_status_all_present.
    - by rewrite (bool_decide_eq_false_2 _ Hall). }
  by destruct (nonempty _), (bool_decide _).
Qed.

(** X2: the redirect to the index page carries the parameters of [extra]
    unchanged, the trimmed [q] of the form exactly when it is not empty, and
    the trimmed [status] of the form exactly when it is [all], [active] or
    [completed] (that the field is present follows from this and need not be
    tested again); it carries nothing else, and an entry of [extra] takes
    precedence over the form. *)
Theorem redirect_to_index_params (req : Request)
    (extra : gmap string pystr) :
  let params := redirect_to_index req extra in
  let q := strip (default [] (form req !! "q")) in
  let st := strip (default [] (form req !! "status")) in
  (forall k v, extra !! k = Some v -> params !! k = Some v)
  /\ (extra !! "q" = None ->
      params !! "q" = if nonempty q then Some q else None)
  /\ (extra !! "status" = None ->
      params !! "status" = if known_status st then Some st else None)
  /\ (forall k, k <> "q" -> k <> "status" -> params !! k = extra !! k)
  /\ (forall v, extra !! "q" = None -> params !! "q" = Some v ->
        v <> [] /\ strip v = v).
Proof.
  intros params q st.
  assert (forall k, extra !! k = None ->
            params !! k
            = (if known_status st then <["status" := st]>
                 (if nonempty q then {["q" := q]} else ∅ : gmap string pystr)
               else if nonempty q then {["q" := q]} else ∅) !! k) as Hown.
  { intros k Hk. subst params. rewrite redirect_to_index_own.
    by rewrite lookup_union_r. }
  split_and!.
  - intros k v Hk. subst params. rewrite redirect_to_index_own.
    by apply lookup_union_Some_l.
  - intros Hq. rewrite (Hown _ Hq).
    destruct (known_status st), (nonempty q); by simplify_map_eq.
  - intros Hs. rewrite (Hown _ Hs).
    destruct (known_status st), (nonempty q); by simplify_map_eq.
  - intros k Hq Hs. destruct (extra !! k) as [v|] eqn:Hk.
    + subst params. rewrite redirect_to_index_own.
      by apply lookup_union_Some_l.
    + rewrite (Hown _ Hk).
      destruct (known_status st), (nonempty q); by simplify_map_eq.
  - intros v Hq. rewrite (Hown _ Hq).
    destruct (nonempty q) eqn:Hne.
    + assert (q <> [] /\ strip q = q) as Hv.
      { split; [by apply nonempty_true | apply strip_idem]. }
      intros Hl. destruct (known_status st); by simplify_map_eq.
    + intros Hl. destruct (known_status st); by simplify_map_eq.
Qed.


Lemma find_task_in (tasks : list Task) (task_id : pystr) (pos : nat)
    (task : Task) :
  find_task tasks task_id = Some (pos, task) ->
  tasks !! pos = Some task /\ id task = task_id
  /\ forall j t', tasks !! j = Some t' -> j < pos -> id t' <> task_id.
Proof. unfold find_task. by rewrite list_find_Some. Qed.

(** X3: [index] never writes the backing file, whatever it returns or
    raises.  When loading raises, [index] raises the same exception; when
    loading returns tasks, [index] returns a view that echoes the trimmed
    [q] and the [status] parameter as given (any value, [all] when absent),
    and the tasks shown and the edit target are tasks of the loaded
    collection.  (A record with a field outside its declared type is where
    the model stops: the outcome is [Unmodelled], and nothing is stated
    about what [index] does with such a task.) *)
Theorem index_only_reads (req : Request) (w : World) :
  same_store w (snd (index req w))
  /\ (forall e w1, load_tasks w = (Raised e, w1) ->
        index req w = (Raised e, w1))
  /\ (forall tasks w1, load_tasks w = (Returned tasks, w1) ->
        exists v,
          index req w = (Returned v, w1)
          /\ view_search v = strip (default [] (args req !! "q"))
          /\ view_status v = default (str "all") (args req !! "status")
          /\ length (view_tasks v) <= length tasks
          /\ (forall t, t ∈ view_tasks v -> t ∈ tasks)
          /\ (forall t, view_edit_task v = Some t -> t ∈ tasks)).
Proof.
  split_and!.
  - apply reads_only_bind; [apply reads_only_load|].
    intros tasks. apply reads_only_ret.
  - intros e w1 Hl. unfold index. by rewrite (bind_raised _ _ _ _ _ Hl).
  - intros tasks w1 Hl. rewrite (index_run _ _ _ _ Hl). eexists.
    split; [reflexivity|]. split; [done|]. split; [done|].
    rewrite index_view_tasks. split_and!.
    + rewrite (Permutation_length (sorted_perm sort_key _)).
      apply List.filter_length_le.
    + intros t. rewrite (sorted_perm sort_key).
      rewrite list_elem_of_In, filter_In, <- list_elem_of_In. tauto.
    + intros t. unfold index_view. simpl.
      destruct (truthy (args req !! "edit")); [|done].
      destruct (find_task tasks _) as [[pos task]|] eqn:Hf; [|done].
      intros [= <-]. apply find_task_in in Hf as (Hpos & _).
      apply list_elem_of_lookup. eauto.
Qed.

Lemma keeps_active (search : pystr) (t : Task) :
  keeps search (str "active") t
  = keeps search (str "all") t && negb (completed t).
Proof. unfold keeps. by rewrite andb_true_r. Qed.

Lemma keeps_completed (search : pystr) (t : Task) :
  keeps search (str "completed") t
  = keeps search (str "all") t && completed t.
Proof. unfold keeps. by rewrite andb_true_r. Qed.

Lemma keeps_other (search status : pystr) (t : Task) :
  status <> str "active" -> status <> str "completed" ->
  keeps search status t = keeps search (str "all") t.
Proof.
  intros Ha Hc. unfold keeps.
  by rewrite (bool_decide_eq_false_2 _ Ha), (bool_decide_eq_false_2 _ Hc).
Qed.

Lemma filter_nothing {A} (p : A -> bool) (l : list A) :
  (forall x, p x = false) -> List.filter p l = [].
Proof.
  intros Hp. induction l as [|x l IH]; [done|]. simpl. by rewrite Hp.
Qed.

Lemma ascending_app {A} (f : A -> key) (l1 l2 : list A) :
  StronglySorted (fun a b => key_le (f a) (f b)) l1 ->
  StronglySorted (fun a b => key_le (f a) (f b)) l2 ->
  (forall a b, a ∈ l1 -> b ∈ l2 -> key_le (f a) (f b)) ->
  StronglySorted (fun a b => key_le (f a) (f b)) (l1 ++ l2).
Proof.
  intros Hs1 Hs2 Hcross. induction Hs1 as [|a l1 Hs1 IH Ha]; [done|].
  simpl. constructor.
  - apply IH. intros x y Hx Hy. apply Hcross; [by right | done].
  - apply Forall_app. split; [done|].
    apply Forall_forall. intros b Hb. apply Hcross; [by left | done].
Qed.

(** X9: for every search text, the list shown under [all] (or under any
    status value other than [active] and [completed]) is the list shown
    under [active] followed by the list shown under [completed]: every open
    task comes before every completed one, and each part keeps its order. *)
Theorem index_view_splits_by_status (tasks : list Task) (search : pystr)
    (edit_id : option pystr) :
  let shown status :=
    view_tasks (index_view tasks search status edit_id) in
  shown (str "all") = shown (str "active") ++ shown (str "completed")
  /\ (forall status, status <> str "active" -> status <> str "completed" ->
        shown status = shown (str "all"))
  /\ Forall (fun t => completed t = false) (shown (str "active"))
  /\ Forall (fun t => completed t = true) (shown (str "completed")).
Proof.
  intros shown. subst shown. cbv beta. rewrite !index_view_tasks.
  assert (Forall (fun t => completed t = false)
            (sorted sort_key (List.filter (keeps search (str "active")) tasks)))
    as Hopen.
  { apply Forall_forall. intros t. rewrite (sorted_perm sort_key).
    rewrite list_elem_of_In, filter_In, keeps_active, andb_true_iff.
    intros (_ & _ & Hc). by apply negb_true_iff. }
  assert (Forall (fun t => completed t = true)
            (sorted sort_key
               (List.filter (keeps search (str "completed")) tasks)))
    as Hdone.
  { apply Forall_forall. intros t. rewrite (sorted_perm sort_key).
    rewrite list_elem_of_In, filter_In, keeps_completed, andb_true_iff.
    by intros (_ & _ & Hc). }
  split_and!; [|  |done|done].
  - symmetry. apply sorted_unique.
    + apply ascending_app; [apply sorted_ascending | apply sorted_ascending|].
      intros a b Ha Hb. rewrite Forall_forall in Hopen, Hdone.
      apply Hopen in Ha. apply Hdone in Hb.
      unfold key_le, sort_key, key_ltb. by rewrite Ha, Hb.
    + intros k. rewrite List.filter_app, !sorted_stable, !filter_twice.
      destruct k as [[c d] u]. destruct c.
      * rewrite (filter_nothing
                   (fun t => keeps search (str "active") t
                             && bool_decide (sort_key t = (true, d, u)))).
        { simpl. apply List.filter_ext. intros t.
          rewrite keeps_completed.
          destruct (bool_decide (sort_key t = (true, d, u))) eqn:Hk;
            [|by rewrite !andb_false_r].
          apply bool_decide_eq_true in Hk. unfold sort_key in Hk.
          injection Hk as -> _ _. by rewrite !andb_true_r. }
        intros t. rewrite keeps_active.
        destruct (bool_decide (sort_key t = (true, d, u))) eqn:Hk;
          [|by rewrite !andb_false_r].
        apply bool_decide_eq_true in Hk. unfold sort_key in Hk.
        injection Hk as -> _ _. by rewrite !andb_false_r.
      * rewrite (filter_nothing
                   (fun t => keeps search (str "completed") t
                             && bool_decide (sort_key t = (false, d, u)))).
        { rewrite app_nil_r. apply List.filter_ext. intros t.
          rewrite keeps_active.
          destruct (bool_decide (sort_key t = (false, d, u))) eqn:Hk;
            [|by rewrite !andb_false_r].
          apply bool_decide_eq_true in Hk. unfold sort_key in Hk.
          injection Hk as -> _ _. by rewrite !andb_true_r. }
        intros t. rewrite keeps_completed.
        destruct (bool_decide (sort_key t = (false, d, u))) eqn:Hk;
          [|by rewrite !andb_false_r].
        apply bool_decide_eq_true in Hk. unfold sort_key in Hk.
        injection Hk as -> _ _. by rewrite !andb_false_r.
  - intros status Ha Hc. rewrite index_view_tasks. f_equal.
    apply List.filter_ext. intros t.
    by apply keeps_other.
Qed.

End ViewExtras.

(** ** The four commands *)

Section CommandExtras.
Context `{Runtime}.

Lemma written_stores (tasks : list Task) (w : World) :
  stores tasks (written (json_dumps (payload tasks)) w).
Proof. split; [done|]. intros [Hne Hdec]. by apply load_saved. Qed.

Lemma find_task_first (tasks : list Task) (task_id : pystr) (pos : nat)
    (task : Task) :
  find_task tasks task_id = Some (pos, task)
  <-> first_with_id tasks task_id pos task.
Proof. unfold find_task, first_with_id. by rewrite list_find_Some. Qed.

Lemma command_bind (task_id : pystr) (req : Request) (h : M Response) :
  h ∈ commands task_id req -> exists k, h = bind load_tasks k.
Proof.
  unfold commands. rewrite !elem_of_cons, elem_of_nil.
  intros [-> | [-> | [-> | [-> | []]]]]; eexists; reflexivity.
Qed.

Lemma command_shape (task_id : pystr) (req : Request) (w w1 : World)
    (tasks : list Task) (h : M Response) :
  load_tasks w = (Returned tasks, w1) ->
  h ∈ commands task_id req ->
  rejected w (h w) \/ attempted_save w (h w).
Proof.
  intros Hl. pose proof (load_tasks_store _ _ _ Hl) as Hst.
  unfold commands. rewrite !elem_of_cons, elem_of_nil.
  intros [-> | [-> | [-> | [-> | []]]]].
  - rewrite (create_task_run _ _ _ _ Hl).
    destruct (nonempty (title_text req));
      [|left; unfold rejected, answer, ret; eauto].
    destruct (nonempty (due_text req) && _);
      [left; unfold rejected, answer, ret; eauto|].
    right. unfold bind at 1. rewrite new_Task_run.
    unfold attempted_save, answer. do 4 eexists. split; [|reflexivity].
    destruct Hst as (? & ? & ?). by split_and!.
  - unfold update_status. rewrite (bind_returned _ _ _ _ _ Hl).
    destruct (find_task tasks task_id) as [[pos task]|];
      [|left; unfold rejected, answer, ret; eauto].
    destruct (negb _);
      [left; unfold rejected, answer, ret; eauto|].
    right. unfold bind at 1. rewrite apply_completion_run.
    unfold attempted_save, answer. do 4 eexists. split; [|reflexivity].
    destruct Hst as (? & ? & ?). by split_and!.
  - destruct (find_task tasks task_id) as [[pos task]|] eqn:Hf.
    + rewrite (update_task_run _ _ _ _ _ _ _ Hl Hf).
      destruct (nonempty (title_text req));
        [|left; unfold rejected, answer, ret; eauto].
      destruct (nonempty (due_text req) && _);
        [left; unfold rejected, answer, ret; eauto|].
      right. unfold bind at 1. rewrite apply_completion_run.
      unfold attempted_save, answer. do 4 eexists. split; [|reflexivity].
      destruct Hst as (? & ? & ?). by split_and!.
    + left. unfold update_task. rewrite (bind_returned _ _ _ _ _ Hl), Hf.
      unfold rejected, answer, ret. eauto.
  - unfold delete_task. rewrite (bind_returned _ _ _ _ _ Hl).
    destruct (bool_decide _);
      [left; unfold rejected, answer, ret; eauto|].
    right. unfold attempted_save, answer. do 4 eexists.
    split; [exact Hst | reflexivity].
Qed.

(** How a command that reached its save ends: it answers with a success,
    or the write raised, [OSError] on a device that fails or
    [UnicodeEncodeError] on a text that cannot be encoded, the file then
    being empty. *)
Lemma reaches_save_outcome (tasks' : list Task) (w : World)
    (r : outcome Response * World) :
  reaches_save tasks' w r ->
  writes (snd r) = S (writes w)
  /\ ((exists msg params, fst r = Returned (mkResponse (msg, success) params))
      \/ (fst r = Raised OSError /\ device w <> WriteOk)
      \/ (fst r = Raised UnicodeEncodeError
          /\ encodable (json_dumps (payload tasks')) = false
          /\ device w <> FailAtOpen /\ disk (snd r) = Text [])).
Proof.
  intros (w2 & msg & params & (Hd & Hdev & Hw) & ->).
  unfold bind, save_tasks, save. fold (payload tasks').
  destruct (write_text_cases (json_dumps (payload tasks')) w2)
    as [(Hrun & _)|[(Hrun & Hf)|[(Hrun & He & Hf)|(n & Hrun & Hf & _)]]];
    rewrite Hrun; simpl.
  - split; [congruence|]. left. eauto.
  - split; [congruence|]. right. left. split; [done | congruence].
  - split; [congruence|]. right. right. split_and!; try done. congruence.
  - split; [congruence|]. right. left. split; [done | congruence].
Qed.

Lemma attempted_save_outcome (w : World) (r : outcome Response * World) :
  attempted_save w r ->
  writes (snd r) = S (writes w)
  /\ ((exists msg params, fst r = Returned (mkResponse (msg, success) params))
      \/ exists e, fst r = Raised e).
Proof.
  intros (tasks' & Hreach).
  destruct (reaches_save_outcome tasks' w r Hreach)
    as (Hn & [Hret | [(Hr & _) | (Hr & _)]]); eauto.
Qed.

Lemma command_success (task_id : pystr) (req : Request) (w w1 w' : World)
    (tasks : list Task) (h : M Response) (resp : Response) :
  load_tasks w = (Returned tasks, w1) ->
  h ∈ commands task_id req ->
  h w = (Returned resp, w') -> snd (flashed resp) = success ->
  exists tasks', result_of task_id req w1 tasks tasks' /\ stores tasks' w'.
Proof.
  intros Hl Hh Hrun Hs. revert Hh Hrun.
  unfold commands. rewrite !elem_of_cons, elem_of_nil.
  intros [-> | [-> | [-> | [-> | []]]]] Hrun.
  - destruct (create_task_success _ _ _ _ _ _ Hl Hrun Hs) as (Ht & Hd & ->).
    eexists. split; [by apply result_create | apply written_stores].
  - destruct (update_status_success _ _ _ _ _ _ _ Hl Hrun Hs)
      as (pos & task & Hf & Hk & ->).
    eexists. split; [by eapply result_status | apply written_stores].
  - destruct (update_task_success _ _ _ _ _ _ _ Hl Hrun Hs)
      as (pos & task & Hf & Ht & Hd & ->).
    eexists. split; [by eapply result_update | apply written_stores].
  - destruct (delete_task_success _ _ _ _ _ _ _ Hl Hrun Hs) as (Hk & ->).
    eexists. split; [by apply result_delete | apply written_stores].
Qed.

(** X4: whatever the request and the state of the file, a command calls
    [write_text] at most once; a command that answers has written exactly
    once when it flashes a success and not at all when it flashes an error. *)
Theorem commands_write_at_most_once (task_id : pystr) (req : Request)
    (w : World) (h : M Response) :
  h ∈ commands task_id req ->
  writes w <= writes (snd (h w)) <= S (writes w)
  /\ (forall resp w', h w = (Returned resp, w') ->
        writes w' = match snd (flashed resp) with
                    | success => S (writes w)
                    | error => writes w
                    end).
Proof.
  intros Hh. destruct (load_tasks w) as [r w1] eqn:Hl.
  pose proof (load_tasks_store _ _ _ Hl) as (_ & _ & Hw1).
  destruct r as [tasks|e|].
  - destruct (command_shape _ _ _ _ _ _ Hl Hh) as [Hrej | Hsave].
    + destruct Hrej as (msg & params & w' & -> & _ & _ & Hw').
      simpl. split; [lia|]. intros resp w'' [= <- <-]. done.
    + apply attempted_save_outcome in Hsave as (Hn & Hout).
      split; [lia|]. intros resp w' Hrun. rewrite Hrun in *. simpl in *.
      destruct Hout as [(msg & params & [= ->]) | (e & [=])]. done.
  - destruct (command_bind _ _ _ Hh) as (k & ->).
    rewrite (bind_raised _ _ _ _ _ Hl). simpl. split; [lia | done].
  - destruct (command_bind _ _ _ Hh) as (k & ->).
    unfold bind. rewrite Hl. simpl. split; [lia | done].
Qed.

(** X7: once the collection is loaded, a command is either rejected, and
    answers, or reaches its save.  No exception leaves a command but those
    of that one write: [OSError] on a device that fails, or
    [UnicodeEncodeError] when the serialisation holds a surrogate, the
    device permitting the open; the file is then empty.  A command that
    reaches its save on a device that works, with a serialisation that can
    be encoded, answers. *)
Theorem commands_fail_only_on_write (task_id : pystr) (req : Request)
    (w w1 : World) (tasks : list Task) (h : M Response) :
  load_tasks w = (Returned tasks, w1) ->
  h ∈ commands task_id req ->
  (rejected w (h w) \/ attempted_save w (h w))
  /\ fst (h w) <> Unmodelled
  /\ (forall e, fst (h w) = Raised e ->
        exists tasks',
          reaches_save tasks' w (h w)
          /\ writes (snd (h w)) = S (writes w)
          /\ ((e = OSError /\ device w <> WriteOk)
              \/ (e = UnicodeEncodeError
                  /\ encodable (json_dumps (payload tasks')) = false
                  /\ device w <> FailAtOpen
                  /\ disk (snd (h w)) = Text [])))
  /\ (forall tasks', reaches_save tasks' w (h w) ->
        device w = WriteOk ->
        encodable (json_dumps (payload tasks')) = true ->
        exists resp, fst (h w) = Returned resp).
Proof.
  intros Hl Hh. split; [by eapply command_shape|].
  split_and!.
  - destruct (command_shape _ _ _ _ _ _ Hl Hh)
      as [(msg & params & w' & -> & _) | (tasks' & Hreach)]; [done|].
    destruct (reaches_save_outcome _ _ _ Hreach)
      as (_ & [(msg & params & ->) | [(-> & _) | (-> & _)]]); done.
  - intros e He.
    destruct (command_shape _ _ _ _ _ _ Hl Hh)
      as [(msg & params & w' & Hrun & _) | (tasks' & Hreach)].
    { by rewrite Hrun in He. }
    exists tasks'. split; [exact Hreach|].
    destruct (reaches_save_outcome _ _ _ Hreach)
      as (Hn & [(msg & params & Hr) | [(Hr & Hd) | (Hr & Henc & Hd & Hdisk)]]);
      rewrite Hr in He; [done| |]; injection He as <-.
    + split; [done|]. by left.
    + split; [done|]. by right.
  - intros tasks' Hreach. by apply reaches_save_answers.
Qed.

Lemma first_with_id_insert (tasks : list Task) (task_id : pystr) (pos : nat)
    (task task' : Task) :
  first_with_id tasks task_id pos task -> id task' = id task ->
  first_with_id (<[pos := task']> tasks) task_id pos task'.
Proof.
  intros (Hp & Hid & Hfirst) Hid'. split_and!.
  - apply list_lookup_insert_eq. by eapply lookup_lt_Some.
  - congruence.
  - intros j t Hj Hlt. rewrite list_lookup_insert_ne in Hj by lia. eauto.
Qed.

Lemma replaced_in_place_intro (tasks : list Task) (task_id : pystr)
    (pos : nat) (task task' : Task) (w : World) :
  first_with_id tasks task_id pos task ->
  id task' = id task -> created_at task' = created_at task ->
  replaced_in_place tasks task_id pos task task'
    (written (json_dumps (payload (<[pos := task']> tasks))) w).
Proof.
  intros Hfirst Hid Hcr. pose proof Hfirst as (Hp & _).
  unfold replaced_in_place. split_and!; [| | | |done|done|].
  - apply written_stores.
  - apply list_lookup_insert_eq. by eapply lookup_lt_Some.
  - intros j Hj. by apply list_lookup_insert_ne.
  - apply length_insert.
  - by apply (first_with_id_insert _ _ _ task).
Qed.

(** X5: a set-status or an update that succeeds replaces one task, the first
    of the loaded collection with the given id, and leaves every other
    position as it was.  The task keeps its id and its creation stamp, so it
    is found under the same id afterwards; set-status changes only the flag
    and [updated_at], update takes title, description, due date and flag
    from the form. *)
Theorem edits_replace_first_match (task_id : pystr) (req : Request)
    (w w1 : World) (tasks : list Task) :
  load_tasks w = (Returned tasks, w1) ->
  (forall resp w',
     update_status task_id req w = (Returned resp, w') ->
     snd (flashed resp) = success ->
     exists pos task flag,
       first_with_id tasks task_id pos task
       /\ form req !! "state"
          = Some (if flag : bool then str "completed" else str "active")
       /\ replaced_in_place tasks task_id pos task
            (touched task flag (now_at (clock_reads w1))) w')
  /\ (forall resp w',
        update_task task_id req w = (Returned resp, w') ->
        snd (flashed resp) = success ->
        exists pos task,
          first_with_id tasks task_id pos task
          /\ replaced_in_place tasks task_id pos task
               (updated req w1 task) w').
Proof.
  intros Hl. split.
  - intros resp w' Hrun Hs.
    destruct (update_status_success _ _ _ _ _ _ _ Hl Hrun Hs)
      as (pos & task & Hf & Hk & ->).
    apply find_task_first in Hf. exists pos, task.
    destruct Hk as [Hk | Hk]; rewrite Hk.
    + exists true. split_and!; [done | done |].
      by apply replaced_in_place_intro.
    + exists false. split_and!; [done | done |].
      by apply replaced_in_place_intro.
  - intros resp w' Hrun Hs.
    destruct (update_task_success _ _ _ _ _ _ _ Hl Hrun Hs)
      as (pos & task & Hf & _ & _ & ->).
    apply find_task_first in Hf. exists pos, task.
    split; [done|]. by apply replaced_in_place_intro.
Qed.

Lemma without_id_elem (task_id : pystr) (tasks : list Task) (t : Task) :
  t ∈ without_id task_id tasks <-> t ∈ tasks /\ id t <> task_id.
Proof.
  unfold without_id.
  rewrite !list_elem_of_In, filter_In, negb_true_iff, bool_decide_eq_false.
  done.
Qed.

Lemma without_id_sublist (task_id : pystr) (tasks : list Task) :
  sublist (without_id task_id tasks) tasks.
Proof.
  unfold without_id. induction tasks as [|t l IH]; simpl; [constructor|].
  destruct (negb _); by constructor.
Qed.

Lemma without_id_lookup (task_id other : pystr) (tasks : list Task) :
  lookup_by_id (without_id task_id tasks) other
  = if bool_decide (other = task_id) then None else lookup_by_id tasks other.
Proof.
  unfold without_id. induction tasks as [|t l IH]; simpl.
  - by destruct (bool_decide _).
  - destruct (decide (id t = task_id)) as [Heq | Hne].
    + rewrite (bool_decide_eq_true_2 _ Heq). simpl. rewrite IH.
      destruct (decide (other = task_id)) as [-> | Ho].
      * by rewrite !bool_decide_eq_true_2.
      * rewrite (bool_decide_eq_false_2 _ Ho).
        rewrite bool_decide_eq_false_2; [done | congruence].
    + rewrite (bool_decide_eq_false_2 _ Hne). simpl. rewrite IH.
      destruct (decide (id t = other)) as [Heq | Hne'].
      * rewrite (bool_decide_eq_true_2 _ Heq).
        rewrite bool_decide_eq_false_2; [done | congruence].
      * by rewrite (bool_decide_eq_false_2 _ Hne').
Qed.

(** X6: a delete that succeeds stores the loaded collection without EVERY
    task that has the given id, not only the first: the other tasks stay, in
    their order, and remain found under their ids, while nothing is found
    under the deleted id.  A delete for an id the collection holds is never
    rejected, it goes on to save the remaining tasks; a delete for an id the
    collection does not hold is rejected. *)
Theorem delete_removes_every_match (task_id : pystr) (req : Request)
    (w w1 : World) (tasks : list Task) :
  load_tasks w = (Returned tasks, w1) ->
  let remaining := without_id task_id tasks in
  (forall resp w',
     delete_task task_id req w = (Returned resp, w') ->
     snd (flashed resp) = success ->
     (exists t, t ∈ tasks /\ id t = task_id)
     /\ stores remaining w' /\ length remaining < length tasks)
  /\ (forall t, t ∈ remaining <-> t ∈ tasks /\ id t <> task_id)
  /\ sublist remaining tasks
  /\ lookup_by_id remaining task_id = None
  /\ (forall other, other <> task_id ->
        lookup_by_id remaining other = lookup_by_id tasks other)
  /\ ((exists t, t ∈ tasks /\ id t = task_id) ->
      reaches_save remaining w (delete_task task_id req w))
  /\ ((forall t, t ∈ tasks -> id t <> task_id) ->
      rejected w (delete_task task_id req w)).
Proof.
  intros Hl remaining. subst remaining.
  assert ((exists t, t ∈ tasks /\ id t = task_id)
          <-> lookup_by_id tasks task_id <> None) as Hex.
  { split.
    - intros (t & Hin & Hid) Hnone.
      apply without_id_same_length in Hnone.
      assert (t ∈ without_id task_id tasks -> False) as Hout
        by (rewrite without_id_elem; tauto).
      apply Hout. unfold without_id in *.
      rewrite filter_absent_id; [done|].
      by apply without_id_same_length.
    - intros Hsome. destruct (lookup_by_id tasks task_id) as [t|] eqn:Hk;
        [|done].
      apply lookup_by_id_spec in Hk as (i & Hi & Hid & _).
      exists t. split; [|done]. apply list_elem_of_lookup. eauto. }
  split_and!.
  - intros resp w' Hrun Hs.
    destruct (delete_task_success _ _ _ _ _ _ _ Hl Hrun Hs) as (Hk & ->).
    split_and!; [by apply Hex | apply written_stores |].
    by apply without_id_shorter.
  - apply without_id_elem.
  - apply without_id_sublist.
  - rewrite without_id_lookup. by rewrite bool_decide_eq_true_2.
  - intros other Ho. rewrite without_id_lookup.
    by rewrite (bool_decide_eq_false_2 _ Ho).
  - intros Hsome. apply Hex in Hsome.
    rewrite (delete_task_passes _ _ _ _ _ Hl Hsome).
    apply reaches_save_intro. by eapply load_tasks_store.
  - intros Hnone. eapply delete_task_rejects; [exact Hl|].
    by apply lookup_by_id_none.
Qed.

(** X8: [validate_due_date] touches nothing and, when it returns a text,
    returns its argument with surrounding whitespace removed: a text that is
    not empty, parses as a date, and is returned unchanged when validated
    again.  Trimming the argument beforehand makes no difference. *)
Theorem validate_due_date_normal_form (raw : pystr) (w : World) :
  snd (validate_due_date raw w) = w
  /\ fst (validate_due_date raw w) <> Unmodelled
  /\ validate_due_date (strip raw) w = validate_due_date raw w
  /\ (forall d w', validate_due_date raw w = (Returned (Some d), w') ->
        d = strip raw /\ d <> [] /\ strip d = d /\ is_Some (strptime d)
        /\ forall w0, validate_due_date d w0 = (Returned (Some d), w0)).
Proof.
  rewrite !validate_due_date_run, strip_idem.
  destruct (nonempty (strip raw)) eqn:Hne.
  - destruct (strptime (strip raw)) as [date|] eqn:Hp;
      (split_and!; [done | done | done |]); [|done].
    intros d w' [= <- <-]. apply nonempty_true in Hne.
    split_and!; [done | done | apply strip_idem | by rewrite Hp |].
    intros w0. rewrite validate_due_date_run, strip_idem.
    apply nonempty_true in Hne. by rewrite Hne, Hp.
  - by split_and!.
Qed.

Lemma well_formed_fields (req : Request) (flag : bool)
    (i created updated : pystr) :
  title_text req <> [] -> due_text_ok (due_text req) ->
  well_formed (mkTask (title_text req) (description_text req)
                 (stored_due (due_text req)) flag i created updated).
Proof.
  intros Ht Hd. unfold well_formed. simpl. split_and!.
  - done.
  - apply strip_idem.
  - apply strip_idem.
  - unfold stored_due. destruct (nonempty (due_text req)) eqn:Hne;
      [|by left].
    apply nonempty_true in Hne. right.
    destruct Hd as [Hd | (date & Hd)]; [done|].
    exists (due_text req), date. split_and!; try done. apply strip_idem.
Qed.

Lemma result_of_well_formed (task_id : pystr) (req : Request) (w1 : World)
    (tasks tasks' : list Task) :
  result_of task_id req w1 tasks tasks' ->
  Forall well_formed tasks -> Forall well_formed tasks'.
Proof.
  intros Hres Hall.
  destruct Hres as [Ht Hd | pos task Hf Hk | pos task Hf Ht Hd | Hk].
  - apply Forall_app. split; [done|]. apply Forall_singleton.
    by apply well_formed_fields.
  - apply Forall_insert; [done|].
    apply find_task_first in Hf as (Hp & _).
    assert (well_formed task) as Hwf.
    { rewrite Forall_forall in Hall. apply Hall.
      apply list_elem_of_lookup. eauto. }
    exact Hwf.
  - apply Forall_insert; [done|]. by apply well_formed_fields.
  - rewrite Forall_forall in *. intros t Ht.
    apply without_id_elem in Ht as (Ht & _). by apply Hall.
Qed.

(** X11: the commands keep the stored tasks well formed.  When every loaded
    task has a title that is not blank, title and description without
    surrounding whitespace, and a due date that is absent or a trimmed text
    that parses, so has every task of the collection a successful command
    leaves in the file. *)
Theorem commands_keep_tasks_well_formed (task_id : pystr) (req : Request)
    (w w1 w' : World) (tasks : list Task) (h : M Response)
    (resp : Response) :
  load_tasks w = (Returned tasks, w1) ->
  Forall well_formed tasks ->
  h ∈ commands task_id req ->
  h w = (Returned resp, w') -> snd (flashed resp) = success ->
  exists tasks',
    result_of task_id req w1 tasks tasks' /\ stores tasks' w'
    /\ Forall well_formed tasks'.
Proof.
  intros Hl Hall Hh Hrun Hs.
  destruct (command_success _ _ _ _ _ _ _ _ Hl Hh Hrun Hs)
    as (tasks' & Hres & Hst).
  exists tasks'. split_and!; [done | done |].
  by eapply result_of_well_formed.
Qed.

Lemma map_id_insert (tasks : list Task) (pos : nat) (task task' : Task) :
  tasks !! pos = Some task -> id task' = id task ->
  map id (<[pos := task']> tasks) = map id tasks.
Proof.
  revert pos. induction tasks as [|t l IH]; intros [|pos] Hp Hid;
    simpl in *; try done.
  - injection Hp as ->. by rewrite Hid.
  - f_equal. by apply IH.
Qed.

Lemma without_id_NoDup (task_id : pystr) (tasks : list Task) :
  NoDup (map id tasks) -> NoDup (map id (without_id task_id tasks)).
Proof.
  induction tasks as [|t l IH]; [done|]. simpl map at 1.
  rewrite NoDup_cons.
  intros (Hout & Hnd). unfold without_id in *. simpl.
  destruct (negb _); [|by apply IH]. simpl. rewrite NoDup_cons.
  split; [|by apply IH]. intros Hin. apply Hout.
  change (id t ∈ id <$> l).
  change (id t ∈ id <$> List.filter
                          (fun task => negb (bool_decide (id task = task_id)))
                          l) in Hin.
  apply list_elem_of_fmap in Hin as (u & -> & Hu).
  apply list_elem_of_fmap_2.
  by apply (without_id_elem task_id) in Hu as (Hu & _).
Qed.

Lemma lookup_by_id_NoDup (tasks : list Task) (t : Task) :
  NoDup (map id tasks) -> t ∈ tasks -> lookup_by_id tasks (id t) = Some t.
Proof.
  induction tasks as [|u l IH]; simpl; intros Hnd Hin.
  - by apply elem_of_nil in Hin.
  - apply NoDup_cons in Hnd as (Hu & Hnd).
    apply elem_of_cons in Hin as [-> | Hin].
    + by rewrite bool_decide_eq_true_2.
    + rewrite bool_decide_eq_false_2; [by apply IH|].
      intros Heq. apply Hu. rewrite Heq.
      change (id t ∈ id <$> l). by apply list_elem_of_fmap_2.
Qed.

(** X12: the commands keep the ids of the stored tasks distinct.  Starting
    from a collection whose ids are pairwise distinct, the collection a
    successful command leaves has pairwise distinct ids as well, the one
    exception being a create whose freshly drawn UUID is already the id of a
    loaded task.  With distinct ids, looking a task up by its id finds that
    very task. *)
Theorem commands_keep_ids_distinct (task_id : pystr) (req : Request)
    (w w1 w' : World) (tasks : list Task) (h : M Response)
    (resp : Response) :
  load_tasks w = (Returned tasks, w1) ->
  NoDup (map id tasks) ->
  h ∈ commands task_id req ->
  h w = (Returned resp, w') -> snd (flashed resp) = success ->
  exists tasks',
    result_of task_id req w1 tasks tasks' /\ stores tasks' w'
    /\ ((NoDup (map id tasks')
         /\ forall t, t ∈ tasks' -> lookup_by_id tasks' (id t) = Some t)
        \/ (tasks' = tasks ++ [created req w1]
            /\ uuid_at (uuid_draws w1) ∈ map id tasks)).
Proof.
  intros Hl Hnd Hh Hrun Hs.
  destruct (command_success _ _ _ _ _ _ _ _ Hl Hh Hrun Hs)
    as (tasks' & Hres & Hst).
  exists tasks'. split_and!; [done | done |].
  assert (NoDup (map id tasks')
          \/ (tasks' = tasks ++ [created req w1]
              /\ uuid_at (uuid_draws w1) ∈ map id tasks)) as [Hnd' | Hdup].
  { destruct Hres as [Ht Hd | pos task Hf Hk | pos task Hf Ht Hd | Hk].
    - destruct (decide (uuid_at (uuid_draws w1) ∈ map id tasks))
        as [Hin | Hout]; [by right | left].
      rewrite map_app. apply NoDup_app. split_and!; [done| |].
      + intros x Hx Hx'. apply list_elem_of_singleton in Hx'.
        simpl in Hx'. by subst x.
      + apply NoDup_singleton.
    - left. apply find_task_first in Hf as (Hp & _).
      by rewrite (map_id_insert _ _ task).
    - left. apply find_task_first in Hf as (Hp & _).
      by rewrite (map_id_insert _ _ task).
    - left. by apply without_id_NoDup. }
  - left. split; [done|]. intros t Ht. by apply lookup_by_id_NoDup.
  - by right.
Qed.

Lemma view_tasks_elem (tasks : list Task) (search status : pystr)
    (edit_id : option pystr) (t : Task) :
  t ∈ view_tasks (index_view tasks search status edit_id)
  <-> t ∈ tasks /\ visible search status t.
Proof.
  rewrite index_view_tasks, (sorted_perm sort_key).
  by rewrite list_elem_of_In, filter_In, <- list_elem_of_In, keeps_visible.
Qed.

Lemma view_echo (tasks : list Task) (search status : pystr)
    (edit_id : option pystr) :
  view_search (index_view tasks search status edit_id) = search
  /\ view_status (index_view tasks search status edit_id) = status.
Proof. done. Qed.

Lemma index_after (tasks : list Task) (w : World) (req : Request) :
  stores tasks w -> codec_ok tasks ->
  index req w
  = (Returned
       (index_view tasks
          (strip (default [] (args req !! "q")))
          (default (str "all") (args req !! "status"))
          (args req !! "edit")),
     after_reading (length tasks) w).
Proof. intros (_ & Hload) Hcodec. apply index_run. by apply Hload. Qed.

(** X13: after a create that answered with a success, the index page lists,
    for every query, exactly the tasks of the old collection and the new
    task that the search text and the status filter let through.  The new
    task is on the page whenever no search text is given and the status is
    not [completed], and never under [completed]. *)
Theorem created_task_is_listed (req : Request) (w w1 w2 : World)
    (tasks : list Task) (resp : Response) :
  load_tasks w = (Returned tasks, w1) ->
  create_task req w = (Returned resp, w2) ->
  snd (flashed resp) = success ->
  codec_ok (tasks ++ [created req w1]) ->
  forall query, exists v w3,
    index query w2 = (Returned v, w3)
    /\ (forall t, t ∈ view_tasks v
                  <-> (t ∈ tasks \/ t = created req w1)
                      /\ visible (view_search v) (view_status v) t)
    /\ (args query !! "q" = None ->
        args query !! "status" <> Some (str "completed") ->
        created req w1 ∈ view_tasks v)
    /\ (args query !! "status" = Some (str "completed") ->
        created req w1 ∉ view_tasks v).
Proof.
  intros Hl Hrun Hs Hcodec query.
  destruct (create_task_success _ _ _ _ _ _ Hl Hrun Hs) as (Ht & Hd & ->).
  rewrite (index_after (tasks ++ [created req w1]));
    [|apply written_stores | done].
  do 2 eexists. split; [reflexivity|].
  destruct (view_echo (tasks ++ [created req w1])
              (strip (default [] (args query !! "q")))
              (default (str "all") (args query !! "status"))
              (args query !! "edit")) as (-> & ->).
  assert (forall t, t ∈ tasks ++ [created req w1]
                    <-> t ∈ tasks \/ t = created req w1) as Hmem.
  { intros t. by rewrite elem_of_app, list_elem_of_singleton. }
  split_and!.
  - intros t. by rewrite view_tasks_elem, Hmem.
  - intros Hq Hst. rewrite view_tasks_elem, Hmem. split; [by right|].
    rewrite Hq. split; [done|]. split; [done|].
    intros Hc. destruct (args query !! "status") as [st|]; simpl in Hc;
      [congruence | done].
  - intros Hst. rewrite view_tasks_elem, Hst. simpl.
    intros (_ & _ & _ & Hc). by specialize (Hc eq_refl).
Qed.

(** X14: after a delete that answered with a success, no page of the index
    lists a task with the deleted id, the editor cannot be opened on it, and
    a further delete, set-status or update for that id is rejected without a
    write. *)
Theorem deleted_task_is_gone (task_id : pystr) (req : Request)
    (w w1 w2 : World) (tasks : list Task) (resp : Response) :
  load_tasks w = (Returned tasks, w1) ->
  delete_task task_id req w = (Returned resp, w2) ->
  snd (flashed resp) = success ->
  codec_ok (without_id task_id tasks) ->
  (forall query, exists v w3,
     index query w2 = (Returned v, w3)
     /\ (forall t, t ∈ view_tasks v -> t ∈ tasks /\ id t <> task_id)
     /\ (args query !! "edit" = Some task_id -> view_edit_task v = None))
  /\ (forall again,
        rejected w2 (delete_task task_id again w2)
        /\ rejected w2 (update_status task_id again w2)
        /\ rejected w2 (update_task task_id again w2)).
Proof.
  intros Hl Hrun Hs Hcodec.
  destruct (delete_task_success _ _ _ _ _ _ _ Hl Hrun Hs) as (Hk & ->).
  pose proof (written_stores (without_id task_id tasks) w1) as Hst.
  split.
  - intros query. rewrite (index_after _ _ _ Hst Hcodec).
    do 2 eexists. split; [reflexivity|]. split.
    + intros t. rewrite view_tasks_elem, without_id_elem. tauto.
    + intros Hedit. unfold index_view. simpl. rewrite Hedit.
      destruct (truthy (Some task_id)); [|done]. simpl.
      rewrite find_task_lookup, without_id_lookup.
      by rewrite bool_decide_eq_true_2.
  - intros again.
    assert (load_tasks
              (written (json_dumps (payload (without_id task_id tasks))) w1)
            = (Returned (without_id task_id tasks),
               after_reading (length (without_id task_id tasks))
                 (written (json_dumps (payload (without_id task_id tasks)))
                    w1)))
      as Hl2 by (by apply Hst).
    assert (lookup_by_id (without_id task_id tasks) task_id = None) as Hno.
    { rewrite without_id_lookup. by rewrite bool_decide_eq_true_2. }
    split_and!.
    + by eapply delete_task_rejects.
    + eapply update_status_rejects; [done | by left].
    + eapply update_task_rejects; [done | by left].
Qed.



End CommandExtras.

(** ** Records stored without an id *)

Section RecordsWithoutId.
Context `{Runtime}.

Lemma only_id (k : string) :
  bool_decide (str k ∈ [str "id"]) = bool_decide (str k = str "id").
Proof. apply bool_decide_ext, list_elem_of_singleton. Qed.

Lemma from_dict_without_id (t : Task) (w : World) :
  from_dict (PDict (without [str "id"] (to_dict t))) w
  = (Returned (with_id (uuid_at (uuid_draws w)) t), after_reading 1 w).
Proof.
  destruct (to_dict_get t) as (Ht & Hd & Hdu & Hc & Hi & Hca & Hua).
  unfold from_dict, get_method.
  unfold bind at 1. unfold ret at 1.
  rewrite dict_get_without, Ht, field_str_if. unfold bind at 1, ret at 1.
  rewrite dict_get_without, Hd, field_str_if. unfold bind at 1, ret at 1.
  rewrite dict_get_without, Hdu, field_opt_str_if. unfold bind at 1, ret at 1.
  rewrite dict_get_without, Hc, field_bool_if. unfold bind at 1, ret at 1.
  unfold bind at 1, uuid4_hex at 1.
  rewrite dict_get_without, Hi, field_str_if. unfold bind at 1, ret at 1.
  unfold bind at 1, _now at 1. cbn [clock_reads uuid_draws disk device writes].
  rewrite dict_get_without, Hca, field_str_if. unfold bind at 1, ret at 1.
  unfold bind at 1, _now at 1. cbn [clock_reads uuid_draws disk device writes].
  rewrite dict_get_without, Hua, field_str_if. unfold bind at 1, ret at 1.
  rewrite !only_id.
  rewrite (bool_decide_eq_true_2 (str "id" = str "id")) by done.
  rewrite !bool_decide_eq_false_2
    by (intros Heq; vm_compute in Heq; discriminate).
  destruct t. reflexivity.
Qed.

Lemma load_without_id (t : Task) (content : pystr) (w : World) :
  disk w = Text content -> strip content <> [] ->
  json_loads content = Some (PList [PDict (without [str "id"] (to_dict t))]) ->
  load w = (Returned [with_id (uuid_at (uuid_draws w)) t], after_reading 1 w).
Proof.
  intros Hd Hne Hdec. rewrite (load_decoded _ _ _ Hd Hne Hdec).
  unfold iterate.
  rewrite (bind_returned (ret _) _ w w _ eq_refl). cbn [for_each].
  by rewrite (bind_returned _ _ _ _ _ (from_dict_without_id t w)).
Qed.

(** X16: a record stored without an [id] is given a new id by every load,
    and no load writes it back.  The index page therefore shows such a task
    under the UUID drawn while loading for the page, whereas the load of the
    next request draws the next UUID: when the two differ, a set-status, an
    update or a delete sent for the id shown is rejected as unknown. *)
Theorem record_without_id_is_renamed_by_every_load (t : Task)
    (content : pystr) (w : World) :
  disk w = Text content -> strip content <> [] ->
  json_loads content = Some (PList [PDict (without [str "id"] (to_dict t))]) ->
  let shown := with_id (uuid_at (uuid_draws w)) t in
  let w1 := after_reading 1 w in
  (forall query, exists v,
     index query w = (Returned v, w1)
     /\ (forall u, u ∈ view_tasks v -> u = shown)
     /\ (args query = ∅ -> view_tasks v = [shown]))
  /\ load w1
     = (Returned [with_id (uuid_at (S (uuid_draws w))) t], after_reading 1 w1)
  /\ (uuid_at (S (uuid_draws w)) <> uuid_at (uuid_draws w) ->
      forall req,
        rejected w1 (update_status (id shown) req w1)
        /\ rejected w1 (update_task (id shown) req w1)
        /\ rejected w1 (delete_task (id shown) req w1)).
Proof.
  intros Hd Hne Hdec shown w1.
  pose proof (load_without_id t content w Hd Hne Hdec) as Hl.
  assert (load w1
          = (Returned [with_id (uuid_at (S (uuid_draws w))) t],
             after_reading 1 w1)) as Hl1.
  { by apply (load_without_id t content w1). }
  split_and!.
  - intros query. rewrite (index_run _ _ _ _ Hl). eexists.
    split; [reflexivity|]. split.
    + intros u Hu. apply view_tasks_elem in Hu as (Hu & _).
      by apply list_elem_of_singleton in Hu.
    + intros ->. reflexivity.
  - exact Hl1.
  - intros Hfresh req.
    assert (lookup_by_id [with_id (uuid_at (S (uuid_draws w))) t] (id shown)
            = None) as Hno.
    { simpl. by rewrite bool_decide_eq_false_2. }
    split_and!.
    + eapply update_status_rejects; [exact Hl1 | by left].
    + eapply update_task_rejects; [exact Hl1 | by left].
    + eapply delete_task_rejects; [exact Hl1 | done].
Qed.

End RecordsWithoutId.

(** * The model at work on concrete requests *)

Module Runs.
Import Demo.

(** C3: [load] raises on a file that is well-formed JSON but not an array of
    records, where the specification promises the empty collection.  An array
    with a number in it and an object make [from_dict] fail with
    [AttributeError] (the item has no [get]); [null] and a number cannot be
    iterated ([TypeError]); bytes that are not UTF-8 raise
    [UnicodeDecodeError], which the handler does not name. *)
Theorem load_raises_on_unexpected_json :
  let R := runtime steady in
  fst (@load R (world (Text (str "[1]")))) = Raised AttributeError
  /\ fst (@load R (world (Text (str "{" ++ quote (str "a") ++ str ": 1}"))))
     = Raised AttributeError
  /\ fst (@load R (world (Text (str "null")))) = Raised TypeError
  /\ fst (@load R (world (Text (str "7")))) = Raised TypeError
  /\ fst (@load R (world NotUtf8)) = Raised UnicodeDecodeError.
Proof. vm_compute. by split_and!. Qed.

(** A missing, blank, undecodable or unreadable file does give the empty
    collection. *)
Example load_tolerates_missing_blank_and_undecodable :
  let R := runtime steady in
  fst (@load R (world Missing)) = Returned []
  /\ fst (@load R (world (Text (str "   ")))) = Returned []
  /\ fst (@load R (world (Text (str "{not json")))) = Returned []
  /\ fst (@load R (world Unreadable)) = Returned [].
Proof. vm_compute. by split_and!. Qed.

(** Against C2: a save interrupted after forty bytes.  Before it, [load]
    gives the stored collection; after it, the file holds the first forty
    bytes of the new serialisation (forty characters, the text being ASCII)
    and [load] gives the empty collection, which is neither the previous
    collection nor the new one. *)
Lemma save_interrupted_loses_collection :
  let R := runtime steady in
  let w := failing_world (stored [milk]) 40 in
  let w' := snd (@save R [milk; rent] w) in
  fst (@load R w) = Returned [milk]
  /\ fst (@save R [milk; rent] w) = Raised OSError
  /\ disk w' = Text (take 40 (print_json (payload [milk; rent])))
  /\ fst (@load R w') = Returned []
  /\ fst (@load R w') <> fst (@load R w)
  /\ fst (@load R w') <> Returned [milk; rent].
Proof. vm_compute. by split_and!. Qed.

(** A failure of another kind than C2's counterexample: the device stops
    inside the two bytes of one character.  The file is then not valid
    UTF-8, and the next [load] raises. *)
Example save_cut_inside_a_character :
  let R := runtime steady in
  let w := failing_world (stored [milk]) 21 in
  let w' := snd (@save R [cafe] w) in
  fst (@save R [cafe] w) = Raised OSError
  /\ disk w' = NotUtf8
  /\ fst (@load R w') = Raised UnicodeDecodeError.
Proof. vm_compute. by split_and!. Qed.

(** A stored lone surrogate.  The file loads, the task is found, and the
    save raises [UnicodeEncodeError] on a device that works: the file is
    left empty, and the next [load] gives no tasks. *)
Example lone_surrogate_empties_the_file :
  let R := runtime steady in
  let w := world ghost_file in
  let r := @update_status R (str "d4") (post [("state", "completed")]) w in
  fst (@load R w) = Returned [ghost]
  /\ device w = WriteOk
  /\ fst r = Raised UnicodeEncodeError
  /\ disk (snd r) = Text []
  /\ fst (@load R (snd r)) = Returned [].
Proof. vm_compute. by split_and!. Qed.

Lemma strip_starts (c : N) (r : pystr) :
  is_space c = false -> strip (c :: r) <> [].
Proof.
  intros Hc. unfold strip. rewrite (lstrip_fixed _ _ Hc).
  by destruct (rstrip_head c r Hc) as [r' ->].
Qed.

Lemma nested_filled (n : nat) : n <> 0 -> strip (nested n) <> [].
Proof. destruct n as [|n]; [done|]. intros _. by apply strip_starts. Qed.

Lemma sevens_filled (n : nat) : n <> 0 -> strip (sevens n) <> [].
Proof. destruct n as [|n]; [done|]. intros _. by apply strip_starts. Qed.

(** The decoder's other exceptions leave [load] as well: a hundred thousand
    arrays one inside the other, and an integer literal of five thousand
    digits. *)
Example load_raises_on_decoder_limits :
  let R := runtime steady in
  fst (@load R (world (Text (nested (100 * 1000))))) = Raised RecursionError
  /\ fst (@load R (world (Text (sevens (5 * 1000))))) = Raised ValueError.
Proof.
  intros R. split.
  - assert (@json_loads R (nested (100 * 1000)) = None) as Hj
      by (vm_compute; reflexivity).
    assert (@json_error R (nested (100 * 1000)) = RecursionError) as He
      by (vm_compute; reflexivity).
    assert (strip (nested (100 * 1000)) <> []) as Hb
      by (apply nested_filled; lia).
    revert Hj He Hb. generalize (nested (100 * 1000)). intros content Hj He Hb.
    rewrite (@load_decoder_raises R _ content RecursionError);
      [reflexivity | reflexivity | exact Hb | exact Hj | exact He
       | reflexivity | reflexivity].
  - assert (@json_loads R (sevens (5 * 1000)) = None) as Hj
      by (vm_compute; reflexivity).
    assert (@json_error R (sevens (5 * 1000)) = ValueError) as He
      by (vm_compute; reflexivity).
    assert (strip (sevens (5 * 1000)) <> []) as Hb
      by (apply sevens_filled; lia).
    revert Hj He Hb. generalize (sevens (5 * 1000)). intros content Hj He Hb.
    rewrite (@load_decoder_raises R _ content ValueError);
      [reflexivity | reflexivity | exact Hb | exact Hj | exact He
       | reflexivity | reflexivity].
Qed.

(** Against C4, the stamps: a second ends between the two readings of the
    clock that one [Task(..)] call makes, and the task created and loaded
    back has a [created_at] one second before its [updated_at].  Against C4,
    the id: nothing compares the drawn UUID with the ids in the file, so a
    store that holds a task under the value of the next draw ends up with
    two tasks under one id. *)
Lemma create_stamps_and_ids_can_clash :
  let twin := mkTask (str "Feed cat") [] None false (uuid_stream 1)
                (str "2024-04-30T08:00:00") (str "2024-04-30T08:00:00") in
  let req := post [("title", "Walk dog")] in
  let w2 := snd (@create_task (runtime crossing) req (world Missing)) in
  let w2' :=
    snd (@create_task (runtime steady) req (world (stored [twin]))) in
  (exists t,
     fst (@load (runtime crossing) w2) = Returned [t]
     /\ title t = str "Walk dog"
     /\ created_at t = str "2024-05-01T10:00:00"
     /\ updated_at t = str "2024-05-01T10:00:01"
     /\ created_at t <> updated_at t)
  /\ (exists t,
        fst (@load (runtime steady) w2') = Returned [twin; t]
        /\ title t = str "Walk dog"
        /\ id t = id twin).
Proof.
  split.
  - exists (mkTask (str "Walk dog") [] None false
              (str "00000000000040008000000000000001")
              (str "2024-05-01T10:00:00") (str "2024-05-01T10:00:01")).
    vm_compute. by split_and!.
  - exists (mkTask (str "Walk dog") [] None false
              (str "00000000000040008000000000000002")
              (str "2024-05-01T10:00:00") (str "2024-05-01T10:00:00")).
    vm_compute. by split_and!.
Qed.

(** The hypotheses of [create_then_load] hold for a form with padded fields
    posted to a store that holds one task, on a clock read twice within one
    second. *)
Lemma create_then_load_witness :
  let R := runtime steady in
  let req := post [("title", "  Walk dog "); ("description", " twice ");
                   ("due_date", " 2024-06-01 ")] in
  let w := world (stored [milk]) in
  exists w2 w3 t,
    fst (@create_task R req w)
    = Returned (mkResponse (MsgCreated, success) ∅)
    /\ @load R w2 = (Returned [milk; t], w3)
    /\ title t = str "Walk dog"
    /\ description t = str "twice"
    /\ due_date t = Some (str "2024-06-01")
    /\ id t <> [] /\ id milk <> id t
    /\ created_at t = updated_at t.
Proof.
  intros R req w.
  destruct (@create_then_load R req w (after_reading 1 w) [milk])
    as (_ & _ & Hret & Hti & Hde & Hdu & _ & _ & _ & Hne & Hfresh & Hstamps).
  - vm_compute. reflexivity.
  - vm_compute. discriminate.
  - right. exists (Date 2024 6 1). vm_compute. reflexivity.
  - split; vm_compute; [discriminate | reflexivity].
  - destruct (Hret (mkResponse (MsgCreated, success) ∅)
                (snd (@create_task R req w)))
      as (_ & w3 & Hload); [vm_compute; reflexivity|].
    exists (snd (@create_task R req w)), w3,
      (@created R req (after_reading 1 w)).
    split_and!.
    + vm_compute. reflexivity.
    + exact Hload.
    + rewrite Hti. vm_compute. reflexivity.
    + rewrite Hde. vm_compute. reflexivity.
    + rewrite Hdu. vm_compute. reflexivity.
    + exact Hne.
    + apply (proj2 Hfresh
               ltac:(intros Hin; apply list_elem_of_singleton in Hin;
                     vm_compute in Hin; discriminate) 0 milk);
        [reflexivity | simpl; lia].
    + apply Hstamps. reflexivity.
Defined.


(** A task last stamped at nine, completed and reopened by two calls one
    second apart shortly after ten: the conditions on the clock hold and the
    final stamp is later than the first. *)
Lemma set_completed_witness :
  let R := runtime ticking in
  let t := mkTask (str "Buy milk") [] None true (str "a1")
             (str "2024-05-01T09:00:00") (str "2024-05-01T09:00:00") in
  exists t2,
    (t1 <~ @apply_completion R t true ;; @apply_completion R t1 false)
      (world Missing)
    = (Returned t2, tick (tick (world Missing)))
    /\ completed t2 = false
    /\ updated_at t2 = str "2024-05-01T10:00:01"
    /\ lt (updated_at t) (updated_at t2).
Proof.
  intros R t.
  destruct (@set_completed_refreshes R t (world Missing))
    as (_ & _ & _ & _ & _ & t2 & Hrun & _ & Hflag & Hstamp & Hlater).
  exists t2. split_and!.
  - exact Hrun.
  - exact Hflag.
  - rewrite Hstamp. vm_compute. reflexivity.
  - apply Hlater; [vm_compute; reflexivity | vm_compute; discriminate].
Defined.

(** Against C9: the clock has moved on, but not into the next second.  Two
    calls within the second of the task's previous stamp leave [updated_at]
    equal to what it was, not strictly greater. *)
Lemma set_completed_within_one_second :
  let R := runtime steady in
  let t := mkTask (str "Buy milk") [] None true (str "a1")
             (str "2024-05-01T10:00:00") (str "2024-05-01T10:00:00") in
  fst ((t1 <~ @apply_completion R t true ;; @apply_completion R t1 false)
         (world Missing))
  = Returned (touched t false (str "2024-05-01T10:00:00"))
  /\ ~ lt (updated_at t) (str "2024-05-01T10:00:00").
Proof. vm_compute. split; [reflexivity | discriminate]. Qed.

(** An update with a blank title, posted for a known task: the answer is a
    rejection and the file is what it was. *)
Lemma rejected_update_witness :
  let R := runtime steady in
  let req := post [("title", "   "); ("due_date", "2024-06-01");
                   ("completed", "1")] in
  let w := world (stored [milk; rent]) in
  rejected w (@update_task R (str "b2") req w)
  /\ disk (snd (@update_task R (str "b2") req w)) = stored [milk; rent].
Proof.
  intros R req w.
  destruct (@rejected_command_leaves_store R (str "b2") req w)
    as (_ & Hrej).
  destruct (Hrej [milk; rent] (after_reading 2 w))
    as (_ & _ & Hupd & _).
  { vm_compute. reflexivity. }
  split.
  - apply Hupd. right. left. vm_compute. reflexivity.
  - vm_compute. reflexivity.
Defined.

(** The filtering examples of the specification. *)
Example index_view_filters :
  let R := runtime steady in
  view_tasks (@index_view R [milk; rent] [] (str "active") None) = [milk]
  /\ view_tasks (@index_view R [milk; rent] [] (str "completed") None) = [rent]
  /\ view_tasks (@index_view R [milk; rent] (str "MILK") (str "all") None)
     = [milk]
  /\ view_tasks (@index_view R [milk; rent] (str "litres") (str "other") None)
     = [milk].
Proof. vm_compute. by split_and!. Qed.

(** The sorting example of the specification: the dated open task first, the
    undated open task next, the completed task last whatever its date. *)
Example index_view_sorts :
  let R := runtime steady in
  view_tasks (@index_view R [rent; milk; report] [] (str "all") None)
  = [report; milk; rent].
Proof. vm_compute. reflexivity. Qed.

(** The handler on a stored collection: [q] is trimmed before it is used. *)
Example index_trims_query :
  let R := runtime steady in
  let req := mkRequest (fields [("q", "  MILK "); ("status", "active")]) ∅ in
  fst (@index R req (world (stored [milk; rent])))
  = Returned (mkView [milk] (str "MILK") (str "active") None).
Proof. vm_compute. reflexivity. Qed.

(** The status filter hides the completed task; it is still the edit
    target. *)
Lemma edit_target_witness :
  let R := runtime steady in
  let v := @index_view R [milk; rent] [] (str "active") (Some (str "b2")) in
  view_edit_task v = Some rent /\ view_tasks v = [milk].
Proof.
  intros R v.
  destruct (@edit_target_unfiltered R [milk; rent] [] (str "active")
              (Some (str "b2"))) as (_ & Hsome & _).
  split.
  - subst v. rewrite (Hsome (str "b2") eq_refl); [|discriminate].
    vm_compute. reflexivity.
  - vm_compute. reflexivity.
Defined.

Example is_overdue_examples :
  let R := runtime steady in
  let today := Date 2024 5 1 in
  let odd := mkTask (str "x") [] (Some (str "tomorrow")) false (str "d4")
               [] [] in
  let due_today := mkTask (str "y") [] (Some (str "2024-05-01")) false
                     (str "e5") [] [] in
  @is_overdue R today report = true
  /\ @is_overdue R today rent = false
  /\ @is_overdue R today milk = false
  /\ @is_overdue R today odd = false
  /\ @is_overdue R today due_today = false.
Proof. vm_compute. by split_and!. Qed.

(** A record with no key at all is read as a task made of defaults. *)
Example from_dict_empty_record :
  let R := runtime ticking in
  fst (@from_dict R (PDict []) (world Missing))
  = Returned (mkTask [] [] None false
                (str "00000000000040008000000000000001")
                (str "2024-05-01T10:00:00") (str "2024-05-01T10:00:01")).
Proof. vm_compute. reflexivity. Qed.

(** A create with a malformed due date, a status change with an unknown
    state, a delete of an unknown id: each answers with an error and writes
    nothing. *)
Example rejections_write_nothing :
  let R := runtime steady in
  let w := world (stored [milk; rent]) in
  rejected w
    (@create_task R (post [("title", "t"); ("due_date", "1/2/2024")]) w)
  /\ rejected w (@update_status R (str "a1") (post [("state", "done")]) w)
  /\ rejected w (@delete_task R (str "zz") (post []) w).
Proof.
  intros R w. unfold rejected. split_and!.
  - exists MsgDueDateFormat, ∅, (after_reading 2 w). by vm_compute.
  - exists MsgUnknownState, ∅, (after_reading 2 w). by vm_compute.
  - exists MsgDeleteNotFound, ∅, (after_reading 2 w). by vm_compute.
Qed.

(** Accepted commands on the same store. *)
Example accepted_commands :
  let R := runtime ticking in
  let w := world (stored [milk; rent]) in
  disk (snd (@update_status R (str "a1") (post [("state", "completed")]) w))
  = stored [touched milk true (str "2024-05-01T10:00:04"); rent]
  /\ disk (snd (@delete_task R (str "a1") (post []) w)) = stored [rent]
  /\ disk (snd (@update_task R (str "b2")
                  (post [("title", " Pay the rent "); ("due_date", "")]) w))
     = stored [milk;
               mkTask (str "Pay the rent") [] None false (str "b2")
                 (str "2024-04-29T09:30:00") (str "2024-05-01T10:00:04")].
Proof. vm_compute. by split_and!. Qed.

End Runs.

(** * The further properties on concrete requests *)

Module Trials.
Import Demo.

(** A create and a delete for an unknown id, on a store that holds one task:
    one write and none. *)
Lemma commands_write_at_most_once_witness :
  let R := runtime steady in
  let req := post [("title", "Walk dog")] in
  let w := world (stored [milk]) in
  writes (snd (@create_task R req w)) = 1
  /\ writes (snd (@delete_task R (str "zz") req w)) = 0.
Proof.
  intros R req w.
  destruct (@commands_write_at_most_once R (str "zz") req w
              (@create_task R req)) as (_ & Hcreate).
  { apply elem_of_cons. by left. }
  destruct (@commands_write_at_most_once R (str "zz") req w
              (@delete_task R (str "zz") req)) as (_ & Hdelete).
  { unfold commands. rewrite !elem_of_cons. tauto. }
  split.
  - apply (Hcreate (mkResponse (MsgCreated, success) ∅)).
    vm_compute. reflexivity.
  - apply (Hdelete (mkResponse (MsgDeleteNotFound, error) ∅)).
    vm_compute. reflexivity.
Defined.

(** A create on a device that fails after five bytes raises out of its
    write; on a device that works it answers; and a set-status on a file
    with a lone surrogate raises on a device that works, leaving the file
    empty. *)
Lemma commands_fail_only_on_write_witness :
  let R := runtime steady in
  let req := post [("title", "Walk dog")] in
  let bad := failing_world (stored [milk]) 5 in
  let good := world (stored [milk]) in
  let haunted := world ghost_file in
  (device bad <> WriteOk /\ writes (snd (@create_task R req bad)) = 1)
  /\ (exists resp, fst (@create_task R req good) = Returned resp)
  /\ disk (snd (@update_status R (str "d4") (post [("state", "completed")])
                  haunted))
     = Text [].
Proof.
  intros R req bad good haunted. split; [|split].
  - destruct (@commands_fail_only_on_write R (str "a1") req bad
                (after_reading 1 bad) [milk] (@create_task R req))
      as (_ & _ & Hraise & _).
    + vm_compute. reflexivity.
    + apply elem_of_cons. by left.
    + destruct (Hraise OSError)
        as (tasks' & _ & Hn & [(_ & Hdev) | (Hbad & _)]).
      * vm_compute. reflexivity.
      * split; [exact Hdev | exact Hn].
      * discriminate Hbad.
  - destruct (@commands_fail_only_on_write R (str "a1") req good
                (after_reading 1 good) [milk] (@create_task R req))
      as (_ & _ & _ & Hgood).
    + vm_compute. reflexivity.
    + apply elem_of_cons. by left.
    + apply (Hgood [milk; @created R req (after_reading 1 good)]).
      * rewrite (@create_task_passes R req good (after_reading 1 good) [milk]).
        -- apply reaches_save_intro. by unfold same_store.
        -- vm_compute. reflexivity.
        -- vm_compute. discriminate.
        -- by left.
      * reflexivity.
      * vm_compute. reflexivity.
  - destruct (@commands_fail_only_on_write R (str "d4")
                (post [("state", "completed")]) haunted
                (after_reading 1 haunted) [ghost]
                (@update_status R (str "d4") (post [("state", "completed")])))
      as (_ & _ & Hraise & _).
    + vm_compute. reflexivity.
    + unfold commands. rewrite !elem_of_cons. tauto.
    + destruct (Hraise UnicodeEncodeError)
        as (tasks' & _ & _ & [(Hbad & _) | (_ & _ & _ & Hdisk)]).
      * vm_compute. reflexivity.
      * discriminate Hbad.
      * exact Hdisk.
Defined.

(** Completing the first of two stored tasks. *)
Lemma edits_replace_first_match_witness :
  let R := runtime steady in
  let req := post [("state", "completed")] in
  let w := world (stored [milk; rent]) in
  exists pos task flag,
    first_with_id [milk; rent] (str "a1") pos task
    /\ @replaced_in_place R [milk; rent] (str "a1") pos task
         (touched task flag (steady 4))
         (snd (@update_status R (str "a1") req w)).
Proof.
  intros R req w.
  destruct (@edits_replace_first_match R (str "a1") req w
              (after_reading 2 w) [milk; rent]) as (Hstatus & _).
  { vm_compute. reflexivity. }
  destruct (Hstatus (mkResponse (MsgStatusUpdated, success) ∅)
              (snd (@update_status R (str "a1") req w)))
    as (pos & task & flag & Hfirst & _ & Hrep).
  { vm_compute. reflexivity. }
  { reflexivity. }
  exists pos, task, flag. split; [exact Hfirst | exact Hrep].
Defined.

(** Deleting the first of two stored tasks goes on to save the second. *)
Lemma delete_removes_every_match_witness :
  let R := runtime steady in
  let req := post [] in
  let w := world (stored [milk; rent]) in
  @reaches_save R [rent] w (@delete_task R (str "a1") req w)
  /\ disk (snd (@delete_task R (str "a1") req w)) = stored [rent].
Proof.
  intros R req w.
  destruct (@delete_removes_every_match R (str "a1") req w
              (after_reading 2 w) [milk; rent])
    as (_ & _ & _ & _ & _ & Hreach & _).
  { vm_compute. reflexivity. }
  split; [|vm_compute; reflexivity].
  apply Hreach.
  exists milk. split; [apply elem_of_cons; by left | reflexivity].
Defined.

(** A create with padded fields on a store that holds one well-formed
    task. *)
Lemma commands_keep_tasks_well_formed_witness :
  let R := runtime steady in
  let req := post [("title", "  Walk dog "); ("due_date", " 2024-06-01 ")] in
  let w := world (stored [milk]) in
  exists tasks',
    @stores R tasks' (snd (@create_task R req w))
    /\ Forall (@well_formed R) tasks'.
Proof.
  intros R req w.
  destruct (@commands_keep_tasks_well_formed R (str "a1") req w
              (after_reading 1 w) (snd (@create_task R req w)) [milk]
              (@create_task R req) (mkResponse (MsgCreated, success) ∅))
    as (tasks' & _ & Hst & Hwf).
  - vm_compute. reflexivity.
  - apply Forall_singleton. split_and!.
    + vm_compute. discriminate.
    + vm_compute. reflexivity.
    + vm_compute. reflexivity.
    + by left.
  - apply elem_of_cons. by left.
  - vm_compute. reflexivity.
  - reflexivity.
  - exists tasks'. split; [exact Hst | exact Hwf].
Defined.

(** A delete on a store of two tasks with distinct ids. *)
Lemma commands_keep_ids_distinct_witness :
  let R := runtime steady in
  let req := post [] in
  let w := world (stored [milk; rent]) in
  exists tasks',
    @stores R tasks' (snd (@delete_task R (str "b2") req w))
    /\ (NoDup (map id tasks')
        \/ uuid_stream 2 ∈ map id [milk; rent]).
Proof.
  intros R req w.
  destruct (@commands_keep_ids_distinct R (str "b2") req w
              (after_reading 2 w) (snd (@delete_task R (str "b2") req w))
              [milk; rent] (@delete_task R (str "b2") req)
              (mkResponse (MsgDeleted, success) ∅))
    as (tasks' & _ & Hst & Hids).
  - vm_compute. reflexivity.
  - apply NoDup_cons. split; [|apply NoDup_singleton].
    intros Hin. apply list_elem_of_singleton in Hin.
    vm_compute in Hin. discriminate.
  - unfold commands. rewrite !elem_of_cons. tauto.
  - vm_compute. reflexivity.
  - reflexivity.
  - exists tasks'. split; [exact Hst|].
    destruct Hids as [(Hnd & _) | (_ & Hdup)]; [by left | by right].
Defined.

(** The created task is on the page opened without parameters. *)
Lemma created_task_is_listed_witness :
  let R := runtime steady in
  let req := post [("title", "  Walk dog "); ("due_date", " 2024-06-01 ")] in
  let w := world (stored [milk]) in
  exists v w3,
    @index R (mkRequest ∅ ∅) (snd (@create_task R req w)) = (Returned v, w3)
    /\ @created R req (after_reading 1 w) ∈ view_tasks v.
Proof.
  intros R req w.
  destruct (@created_task_is_listed R req w (after_reading 1 w)
              (snd (@create_task R req w)) [milk]
              (mkResponse (MsgCreated, success) ∅))
    with (query := mkRequest ∅ ∅)
    as (v & w3 & Hindex & _ & Hlisted & _).
  - vm_compute. reflexivity.
  - vm_compute. reflexivity.
  - reflexivity.
  - split; vm_compute; [discriminate | reflexivity].
  - exists v, w3. split; [exact Hindex|].
    apply Hlisted; [reflexivity | discriminate].
Defined.

(** After the first of two stored tasks is deleted, a second delete for its
    id is rejected. *)
Lemma deleted_task_is_gone_witness :
  let R := runtime steady in
  let req := post [] in
  let w := world (stored [milk; rent]) in
  @rejected
    (snd (@delete_task R (str "a1") req w))
    (@delete_task R (str "a1") req (snd (@delete_task R (str "a1") req w))).
Proof.
  intros R req w.
  destruct (@deleted_task_is_gone R (str "a1") req w (after_reading 2 w)
              (snd (@delete_task R (str "a1") req w)) [milk; rent]
              (mkResponse (MsgDeleted, success) ∅)) as (_ & Hagain).
  - vm_compute. reflexivity.
  - vm_compute. reflexivity.
  - reflexivity.
  - split; vm_compute; [discriminate | reflexivity].
  - apply (Hagain req).
Defined.


(** A file that holds one record without an id: the id shown on the page is
    unknown to the next request. *)
Lemma record_without_id_witness :
  let R := runtime steady in
  let content :=
    print_json (PList [PDict (without [str "id"] (to_dict milk))]) in
  let w := world (Text content) in
  @load R w = (Returned [with_id (uuid_stream 0) milk], after_reading 1 w)
  /\ @rejected (after_reading 1 w)
       (@delete_task R (uuid_stream 0) (post []) (after_reading 1 w)).
Proof.
  intros R content w.
  destruct (@record_without_id_is_renamed_by_every_load R milk content w)
    as (_ & _ & Hrej).
  - reflexivity.
  - vm_compute. discriminate.
  - vm_compute. reflexivity.
  - split; [vm_compute; reflexivity|].
    apply (Hrej ltac:(vm_compute; discriminate) (post [])).
Defined.

End Trials.
